(** * isolator: sandbox executor and OCI layer applier

    A shallow embedding of the executor ([executor.Run], its sandbox
    builder and log transmitter) and of the Docker layer applier
    ([docker.Apply], [docker.increment]) of outofforest/isolator, together
    with the properties the specification states about them.

    Go values are modelled as follows: [string] is a Rocq [string] (a byte
    sequence), [[]byte] is [list byte], integers are [Z], a
    [map[string]bool] used as a set is a [gset string], errors are values of
    an inductive type, and every call that leaves the program (a system
    call, a frame sent on the wire) is threaded through an explicit world
    state and recorded in a trace. *)

From stdpp Require Import gmap strings list pretty.
From Stdlib Require Import ZArith Ascii String.
From Stdlib.Strings Require Import Byte.

Open Scope string_scope.
Open Scope Z_scope.
Open Scope list_scope.

(** ** Go's [strings] and [path/filepath] (Unix) *)

Module filepath.

Definition isSep (c : ascii) : bool := Ascii.eqb c "/"%char.

(** [strings.Split(s, "/")]: never empty, [split ""] is [[""]]. *)
Fixpoint split (s : string) : list string :=
  match s with
  | EmptyString => [EmptyString]
  | String c s' =>
      if isSep c then EmptyString :: split s'
      else match split s' with
           | [] => [String c EmptyString]
           | x :: xs => String c x :: xs
           end
  end.

(** [strings.Join(xs, "/")]. *)
Fixpoint join (xs : list string) : string :=
  match xs with
  | [] => ""
  | [x] => x
  | x :: xs' => x +:+ "/" +:+ join xs'
  end.

(** [strings.HasPrefix] and [strings.TrimPrefix]. *)
Definition HasPrefix (s p : string) : bool := String.prefix p s.

Fixpoint dropn (n : nat) (s : string) : string :=
  match n, s with
  | O, _ => s
  | S n', String _ s' => dropn n' s'
  | S _, EmptyString => EmptyString
  end.

Definition TrimPrefix (s p : string) : string :=
  if HasPrefix s p then dropn (String.length p) s else s.

Definition rooted (s : string) : bool :=
  match s with
  | String c _ => isSep c
  | EmptyString => false
  end.

(** The element loop of [Clean]. [out] is the output buffer, last element
    first. An empty element and [.] are dropped. [..] removes the last
    real element; when there is none to remove (the buffer is empty or
    ends in the leading [../..] prefix, Go's [dotdot] mark) it is kept on
    a relative path and dropped on a rooted one. *)
Fixpoint cleanElems (isRooted : bool) (out : list string) (elems : list string)
  : list string :=
  match elems with
  | [] => rev out
  | e :: rest =>
      if String.eqb e "" || String.eqb e "." then cleanElems isRooted out rest
      else if String.eqb e ".." then
        match out with
        | o :: out' =>
            if String.eqb o ".." then cleanElems isRooted (".." :: out) rest
            else cleanElems isRooted out' rest
        | [] =>
            if isRooted then cleanElems isRooted [] rest
            else cleanElems isRooted [".."] rest
        end
      else cleanElems isRooted (e :: out) rest
  end.

(** [filepath.Clean]. *)
Definition Clean (path : string) : string :=
  if String.eqb path "" then "."
  else
    let body := join (cleanElems (rooted path) [] (split path)) in
    if rooted path then "/" +:+ body
    else if String.eqb body "" then "." else body.

(** [filepath.Join]: leading empty elements are ignored, the rest is
    joined with the separator and cleaned; no non-empty element gives the
    empty string. *)
Fixpoint Join (elem : list string) : string :=
  match elem with
  | [] => ""
  | e :: rest => if String.eqb e "" then Join rest else Clean (join elem)
  end.

(** Everything up to and including the last separator. *)
Definition dirPrefix (path : string) : string :=
  match split path with
  | [] | [_] => ""
  | elems => join (removelast elems) +:+ "/"
  end.

(** [filepath.Dir]. *)
Definition Dir (path : string) : string := Clean (dirPrefix path).

Fixpoint stripTrailingSeps (rev_elems : list string) : list string :=
  match rev_elems with
  | e :: rest => if String.eqb e "" then stripTrailingSeps rest else rev_elems
  | [] => []
  end.

(** [filepath.Base]: trailing separators are stripped, then the last
    element is taken; a path of separators only gives the separator. *)
Definition Base (path : string) : string :=
  if String.eqb path "" then "."
  else match stripTrailingSeps (rev (split path)) with
       | e :: _ => e
       | [] => "/"
       end.

(** A path stays below the directory it is resolved in when it is not
    rooted and, once cleaned, does not start with a [..] element. *)
Definition isLocal (path : string) : bool :=
  negb (rooted path) &&
  match split (Clean path) with
  | e :: _ => negb (String.eqb e "..")
  | [] => true
  end.

End filepath.

(** ** Errors

    Go errors are values; the model keeps what the code inspects: the errno
    behind an [os] or [syscall] failure ([os.IsExist], [os.IsNotExist]), the
    [io.EOF] sentinel, wrapping by [fmt.Errorf("...: %w", err)], and the
    retryable mark. [errors.WithStack] only attaches a stack and is the
    identity here. *)

Inductive errno :=
  EPERM | ENOENT | EIO | EACCES | EEXIST | ENOTDIR | EISDIR | EINVAL | EBUSY
| ENOTEMPTY | EROFS.

Inductive error :=
| Errno (e : errno)
| EOF
| Canceled
| ErrNew (msg : string)
| Wrap (msg : string) (cause : error)
| Retryable (cause : error).

Definition errnoText (e : errno) : string :=
  match e with
  | EPERM => "operation not permitted"
  | ENOENT => "no such file or directory"
  | EIO => "input/output error"
  | EACCES => "permission denied"
  | EEXIST => "file exists"
  | ENOTDIR => "not a directory"
  | EISDIR => "is a directory"
  | EINVAL => "invalid argument"
  | EBUSY => "device or resource busy"
  | ENOTEMPTY => "directory not empty"
  | EROFS => "read-only file system"
  end.

(** [err.Error()]. *)
Fixpoint Error (e : error) : string :=
  match e with
  | Errno n => errnoText n
  | EOF => "EOF"
  | Canceled => "context canceled"
  | ErrNew msg => msg
  | Wrap msg cause => msg +:+ ": " +:+ Error cause
  | Retryable cause => Error cause
  end.

(** [os.IsExist] and [os.IsNotExist] look at the errno of the error they
    are given; they do not unwrap [%w] chains. *)
Definition IsExist (e : error) : bool :=
  match e with
  | Errno EEXIST | Errno ENOTEMPTY => true
  | _ => false
  end.

Definition IsNotExist (e : error) : bool :=
  match e with
  | Errno ENOENT => true
  | _ => false
  end.

(** [errors.Is(err, io.EOF)] follows the [%w] chain. *)
Fixpoint isEOF (e : error) : bool :=
  match e with
  | EOF => true
  | Wrap _ cause => isEOF cause
  | _ => false
  end.

(** ** State passing

    A Go function that acts on the outside world is a function from the
    state to its results and the next state. Functions returning [error]
    return [option error], [None] being [nil]. *)

Section StateMonad.
Context {St : Type}.

Definition M (A : Type) : Type := St -> A * St.

Definition ret {A} (a : A) : M A := fun s => (a, s).

Definition bind {A B} (c : M A) (k : A -> M B) : M B :=
  fun s => let (a, s') := c s in k a s'.

(** [if err := c; err != nil { return wrap(err) }; k] *)
Definition orReturn (c : M (option error)) (wrap : error -> error)
    (k : M (option error)) : M (option error) :=
  bind c (fun e => match e with
                   | Some err => ret (Some (wrap err))
                   | None => k
                   end).

(** The same for a call whose [os.IsExist] failure is tolerated. *)
Definition orReturnUnlessExist (c : M (option error))
    (k : M (option error)) : M (option error) :=
  bind c (fun e => match e with
                   | Some err => if IsExist err then k else ret (Some err)
                   | None => k
                   end).
End StateMonad.

Notation "'let*' x ':=' c 'in' k" := (bind c (fun x => k))
  (at level 10, x name, c at level 100, k at level 200).
Notation "'let*' ' p ':=' c 'in' k" := (bind c (fun x => let 'p := x in k))
  (at level 10, p pattern, c at level 100, k at level 200).
Notation "'check' c 'then' k" := (orReturn c (fun e => e) k)
  (at level 10, c at level 100, k at level 200).
Notation "'check' c 'wrapping' w 'then' k" := (orReturn c (Wrap w) k)
  (at level 10, c at level 100, w at level 100, k at level 200).
Notation "'checkUnlessExist' c 'then' k" := (orReturnUnlessExist c k)
  (at level 10, c at level 100, k at level 200).

(** ** The executor *)

Module executor.

(** *** Wire messages *)

(** Modelled from the spec: [wire.Stream] of package [client/wire]
    (section 6: [0 = Out], [1 = Err]). *)
Inductive Stream := StreamOut | StreamErr.

(** Modelled from the spec: [wire.Mount] of package [client/wire]
    (section 3: host path, container path, writable). *)
Record Mount := { Host : string; Container : string; Writable : bool }.

(** Modelled from the spec: [wire.Config] of package [client/wire]
    (section 3); the executor reads [Chroot] and [Mounts]. *)
Record Config := { Chroot : bool; Mounts : list Mount }.

(** Modelled from the spec: the frames of package [client/wire]
    (sections 3 and 6): the configuration, the three requests, and the two
    responses the executor builds. *)
Inductive message :=
| WConfig (config : Config)
| WExecute (Command : string)
| WCopy (Src Dst : string)
| WInitFromDocker (Image Tag : string)
| WResult (Error : string)
| WLog (stream : Stream) (Text : string).

(** What [%T] prints. *)
Definition typeName (m : message) : string :=
  match m with
  | WConfig _ => "wire.Config"
  | WExecute _ => "wire.Execute"
  | WCopy _ _ => "wire.Copy"
  | WInitFromDocker _ _ => "wire.InitFromDocker"
  | WResult _ => "wire.Result"
  | WLog _ _ => "wire.Log"
  end.

(** *** Calls into the operating system *)

Inductive call :=
| syscall_Mount (source target fstype : string) (flags : Z) (data : string)
| syscall_Unmount (target : string) (flags : Z)
| syscall_PivotRoot (newroot putold : string)
| os_Mkdir (name : string) (perm : Z)
| os_MkdirAll (path : string) (perm : Z)
| os_Chdir (dir : string)
| os_OpenFile (name : string) (flag perm : Z)
| file_Close (name : string)
| os_Symlink (oldname newname : string)
| os_Remove (name : string)
| ioutil_WriteFile (filename data : string) (perm : Z)
| chroot_Enter (dir : string)
| chroot_exit.

Definition MS_RDONLY : Z := 1.
Definition MS_REMOUNT : Z := 32.
Definition MS_BIND : Z := 4096.
Definition MS_REC : Z := 16384.
Definition MS_PRIVATE : Z := 262144.
Definition MS_SLAVE : Z := 524288.
Definition MNT_DETACH : Z := 2.
Definition O_RDONLY : Z := 0.
Definition O_CREATE : Z := 64.
Definition ModeSticky : Z := 1048576.
(** Octal permission literals of the source. *)
Definition o755 : Z := 493.
Definition o777 : Z := 511.
Definition o700 : Z := 448.
Definition o644 : Z := 420.

(** What [/bin/sh -c command] does as seen through [libexec.Exec]: it
    writes chunks to its standard output and standard error, learns the
    result of each [Write], and exits. *)
Inductive proc :=
| Exit (err : option error)
| Emit (s : Stream) (data : list byte) (k : option error -> proc).

(** The environment the executor runs in. Nothing is assumed about it:
    every call may fail. [env_sys] answers a system call,
    [env_Send] is [client.Send] on standard output, [env_ctxErr] is
    [ctx.Err()], [env_Exec], [env_Copy] and [env_Apply] stand for
    [libexec.Exec], [cp.Copy] and [docker.Apply], and [env_mapOrder]
    picks the order in which Go ranges over the map of [populateDev]. *)
Class Env (W : Type) := {
  env_sys : call -> W -> option error * W;
  env_Send : message -> W -> option error * W;
  env_ctxErr : W -> option error * W;
  env_Exec : string -> W -> proc;
  env_Copy : string -> string -> W -> option error * W;
  env_Apply : string -> string -> W -> option error * W;
  env_mapOrder : nat;
}.

(** The trace records, in order, every system call attempted, the
    creation of the HTTP client, every frame sent (or that failed to be
    sent), and the outcome of every request handler. *)
Inductive event :=
| Sys (c : call)
| NewHTTPClient
| Sent (m : message)
| SendFailed (m : message)
| Handled (request : message) (err : option error).

Record state {W : Type} := { world : W; trace : list event }.
Arguments state : clear implicits.

Record logTransmitter := { stream : Stream; buf : list byte }.

Section Executor.
Context {W : Type} `{Env W}.

Definition record (e : event) : @M (state W) unit :=
  fun s => (tt, {| world := world s; trace := trace s ++ [e] |}).

Definition sys (c : call) : @M (state W) (option error) :=
  fun s => let (r, w) := env_sys c (world s) in
           (r, {| world := w; trace := trace s ++ [Sys c] |}).

Definition Send (m : message) : @M (state W) (option error) :=
  fun s => let (r, w) := env_Send m (world s) in
           (r, {| world := w;
                  trace := trace s ++ [match r with
                                       | None => Sent m
                                       | Some _ => SendFailed m
                                       end] |}).

Definition ctxErr : @M (state W) (option error) :=
  fun s => let (r, w) := env_ctxErr (world s) in
           (r, {| world := w; trace := trace s |}).

Definition lift {A} (f : W -> A * W) : @M (state W) A :=
  fun s => let (r, w) := f (world s) in (r, {| world := w; trace := trace s |}).

(** **** Sandbox construction *)

Definition prepareNewRoot : @M (state W) (option error) :=
  check sys (syscall_Mount "" "/" "" (Z.lor MS_SLAVE MS_REC) "")
    wrapping "remounting / as slave failed" then
  checkUnlessExist sys (os_Mkdir "root" o755) then
  check sys (syscall_Mount "root" "root" "" (Z.lor MS_BIND MS_PRIVATE) "")
    wrapping "binding new root to itself failed" then
  sys (os_Chdir "root").

Definition mountProc : @M (state W) (option error) :=
  checkUnlessExist sys (os_Mkdir "proc" o755) then
  check sys (syscall_Mount "none" "proc" "proc" 0 "")
    wrapping "mounting proc failed" then
  ret None.

Definition mountTmp : @M (state W) (option error) :=
  checkUnlessExist sys (os_Mkdir "tmp" (Z.lor o777 ModeSticky)) then
  check sys (syscall_Mount "none" "tmp" "tmpfs" 0 "")
    wrapping "mounting tmp failed" then
  ret None.

Definition devices : list string :=
  ["console"; "null"; "zero"; "random"; "urandom"].

Definition links : list (string * string) :=
  [("fd", "/proc/self/fd"); ("stdin", "fd/0"); ("stdout", "fd/1");
   ("stderr", "fd/2")].

(** The order of a [range] over a map is chosen by the runtime. *)
Definition rangeOrder {A} (n : nat) (l : list A) : list A :=
  default l (permutations l !! (n mod List.length (permutations l))%nat).

Fixpoint bindDevices (devDir : string) (devs : list string)
  : @M (state W) (option error) :=
  match devs with
  | [] => ret None
  | dev :: rest =>
      let devPath := filepath.Join [devDir; dev] in
      check sys (os_OpenFile devPath (Z.lor O_CREATE O_RDONLY) o644)
        wrapping ("creating dev/" +:+ dev +:+ " file failed") then
      check sys (file_Close devPath)
        wrapping ("closing dev/" +:+ dev +:+ " file failed") then
      check sys (syscall_Mount (filepath.Join ["/"; devPath]) devPath ""
                   (Z.lor MS_BIND MS_PRIVATE) "")
        wrapping ("binding dev/" +:+ dev +:+ " device failed") then
      bindDevices devDir rest
  end.

Fixpoint makeLinks (devDir : string) (ls : list (string * string))
  : @M (state W) (option error) :=
  match ls with
  | [] => ret None
  | (newName, oldName) :: rest =>
      check sys (os_Symlink oldName (devDir +:+ "/" +:+ newName)) then
      makeLinks devDir rest
  end.

Definition populateDev : @M (state W) (option error) :=
  let devDir := "dev" in
  checkUnlessExist sys (os_Mkdir devDir o755) then
  check sys (syscall_Mount "none" devDir "tmpfs" 0 "")
    wrapping "mounting tmpfs for dev failed" then
  check bindDevices devDir devices then
  makeLinks devDir (rangeOrder env_mapOrder links).

Fixpoint applyMounts (mounts : list Mount) : @M (state W) (option error) :=
  match mounts with
  | [] => ret None
  | m :: rest =>
      let container := filepath.Join ["."; Container m] in
      checkUnlessExist sys (os_MkdirAll container o700) then
      check sys (syscall_Mount (Host m) container ""
                   (Z.lor MS_BIND MS_PRIVATE) "")
        wrapping ("mounting " +:+ Host m +:+ " to " +:+ container +:+ " failed") then
      if Writable m then applyMounts rest
      else
        check sys (syscall_Mount (Host m) container ""
                     (Z.lor (Z.lor (Z.lor MS_BIND MS_PRIVATE) MS_REMOUNT) MS_RDONLY) "")
          wrapping ("remounting readonly " +:+ Host m +:+ " to " +:+ container +:+ " failed") then
        applyMounts rest
  end.

Definition pivotRoot : @M (state W) (option error) :=
  check sys (os_Mkdir ".old" o700) then
  check sys (syscall_PivotRoot "." ".old") wrapping "pivoting / failed" then
  check sys (syscall_Mount "" ".old" "" (Z.lor MS_PRIVATE MS_REC) "")
    wrapping "remounting .old as private failed" then
  check sys (syscall_Unmount ".old" MNT_DETACH)
    wrapping "unmounting .old failed" then
  sys (os_Remove ".old").

Definition resolvConf : string :=
  "nameserver 8.8.8.8" +:+ String "010"%char "nameserver 8.8.4.4" +:+
  String "010"%char "".

Definition configureDNS : @M (state W) (option error) :=
  checkUnlessExist sys (os_Mkdir "etc" o755) then
  sys (ioutil_WriteFile "etc/resolv.conf" resolvConf o644).

(** The namespace branch of [Run], between the receipt of [Config] and
    the dispatch loop. *)
Definition buildSandbox (config : Config) : @M (state W) (option error) :=
  check prepareNewRoot wrapping "preparing new root filesystem failed" then
  check mountProc then
  check mountTmp then
  check populateDev then
  check applyMounts (Mounts config)
    wrapping "mounting host directories failed" then
  check pivotRoot wrapping "pivoting root filesystem failed" then
  check configureDNS then
  ret None.

(** **** Log transmitter

    The receiver of [Write] and [Flush] is a pointer; the model returns
    the updated transmitter next to the results. *)

Definition Write (lt : logTransmitter) (data : list byte)
  : @M (state W) (logTransmitter * (Z * option error)) :=
  let length := (List.length (buf lt) + List.length data)%nat in
  if (length <? 100)%nat then
    ret ({| stream := stream lt; buf := buf lt ++ data |},
         (Z.of_nat (List.length data), None))
  else
    let buf' := buf lt ++ data in
    let* err := Send (WLog (stream lt) (string_of_list_byte buf')) in
    match err with
    | Some e => ret (lt, (0, Some e))
    | None => ret ({| stream := stream lt; buf := [] |},
                   (Z.of_nat (List.length data), None))
    end.

Definition Flush (lt : logTransmitter)
  : @M (state W) (logTransmitter * option error) :=
  if (List.length (buf lt) =? 0)%nat then ret (lt, None)
  else
    let* err := Send (WLog (stream lt) (string_of_list_byte (buf lt))) in
    match err with
    | Some e => ret (lt, Some e)
    | None => ret ({| stream := stream lt; buf := [] |}, None)
    end.

(** **** Request handlers *)

(** The child process writes through the two transmitters until it
    exits. *)
Fixpoint pump (p : proc) (out err : logTransmitter)
  : @M (state W) (option error * (logTransmitter * logTransmitter)) :=
  match p with
  | Exit e => ret (e, (out, err))
  | Emit StreamOut data k =>
      let* '(out', (_, werr)) := Write out data in
      pump (k werr) out' err
  | Emit StreamErr data k =>
      let* '(err', (_, werr)) := Write err data in
      pump (k werr) out err'
  end.

Definition execute (Command : string) : @M (state W) (option error) :=
  let outTransmitter := {| stream := StreamOut; buf := [] |} in
  let errTransmitter := {| stream := StreamErr; buf := [] |} in
  let* p := lift (fun w => (env_Exec Command w, w)) in
  let* '(err, (outTransmitter, errTransmitter)) :=
    pump p outTransmitter errTransmitter in
  let* _ := Flush outTransmitter in
  let* _ := Flush errTransmitter in
  ret err.

(** The type switch of the dispatch loop; [None] is its [default]
    case. *)
Definition handler (msg : message) : option (@M (state W) (option error)) :=
  match msg with
  | WExecute Command => Some (execute Command)
  | WCopy Src Dst => Some (lift (env_Copy Src Dst))
  | WInitFromDocker Image Tag => Some (lift (env_Apply Image Tag))
  | _ => None
  end.

(** **** Dispatch loop

    Standard input delivers the frames of [inbox] and then fails with
    [fin] ([io.EOF] when the stream ends or is closed). *)
Fixpoint loop (inbox : list message) (fin : error)
  : @M (state W) (option error) :=
  match inbox with
  | [] =>
      let* cancelled := ctxErr in
      if bool_decide (cancelled <> None) || isEOF fin then ctxErr
      else ret (Some (Wrap "receiving message failed" fin))
  | msg :: rest =>
      match handler msg with
      | None => ret (Some (ErrNew ("unexpected message: " +:+ typeName msg)))
      | Some handle =>
          let* err := handle in
          let* _ := record (Handled msg err) in
          let errStr := match err with
                        | Some e => Error e
                        | None => ""
                        end in
          check Send (WResult errStr)
            wrapping "command status reporting failed" then
          loop rest fin
      end
  end.

(** **** [Run], the server task

    This is the task [Run] spawns as "server". [client.Receive] delivers
    the frames of [inbox] and then fails with [fin]; the watchdog task,
    which closes standard input when the context is cancelled, shows as
    that failure and as the answer of [ctx.Err()]. [chroot.Enter] of
    package [lib/chroot] is a call answered by the environment; the closure
    it returns, deferred by [Run], is the call [chroot_exit]. *)
Definition Run (inbox : list message) (fin : error)
  : @M (state W) (option error) :=
  match inbox with
  | [] => ret (Some (Wrap "fetching configuration failed" fin))
  | WConfig config :: rest =>
      let* _ := record NewHTTPClient in
      if Chroot config then
        check sys (chroot_Enter ".") then
        let* res := loop rest fin in
        let* _ := sys chroot_exit in
        ret res
      else
        check buildSandbox config then
        loop rest fin
  | msg :: _ =>
      ret (Some (ErrNew ("expected Config message but got: " +:+ typeName msg)))
  end.

(** **** Harness

    A sequence of [Write] calls on one transmitter. *)
Fixpoint writeSeq (lt : logTransmitter) (chunks : list (list byte))
  : @M (state W) logTransmitter :=
  match chunks with
  | [] => ret lt
  | data :: rest =>
      let* '(lt', _) := Write lt data in
      writeSeq lt' rest
  end.

(** A computation follows a script of system calls when the calls it
    makes are a prefix of the script, and the whole script when it
    succeeds. *)
Definition obeys (c : @M (state W) (option error)) (script : list call) : Prop :=
  forall s, exists cs,
    trace (c s).2 = trace s ++ map Sys cs /\
    cs `prefix_of` script /\
    ((c s).1 = None -> cs = script).
End Executor.

(** *** The sequence of section 4.E of the specification

    Written out call by call; [order] picks the order of the four
    symbolic links. *)

Definition deviceCalls (dev : string) : list call :=
  [os_OpenFile ("dev/" +:+ dev) 64 420;
   file_Close ("dev/" +:+ dev);
   syscall_Mount ("/dev/" +:+ dev) ("dev/" +:+ dev) "" 266240 ""].

Definition linkCall (l : string * string) : call :=
  os_Symlink l.2 ("dev/" +:+ l.1).

Definition mountCalls (m : Mount) : list call :=
  let target := filepath.Join ["."; Container m] in
  [os_MkdirAll target 448; syscall_Mount (Host m) target "" 266240 ""]
  ++ (if Writable m then [] else [syscall_Mount (Host m) target "" 266273 ""]).

Definition rootCalls : list call :=
  [syscall_Mount "" "/" "" 540672 "";
   os_Mkdir "root" 493;
   syscall_Mount "root" "root" "" 266240 "";
   os_Chdir "root"].

Definition procCalls : list call :=
  [os_Mkdir "proc" 493; syscall_Mount "none" "proc" "proc" 0 ""].

Definition tmpCalls : list call :=
  [os_Mkdir "tmp" 1049087; syscall_Mount "none" "tmp" "tmpfs" 0 ""].

Definition devCalls (order : nat) : list call :=
  [os_Mkdir "dev" 493; syscall_Mount "none" "dev" "tmpfs" 0 ""]
  ++ flat_map deviceCalls ["console"; "null"; "zero"; "random"; "urandom"]
  ++ map linkCall (rangeOrder order links).

Definition pivotCalls : list call :=
  [os_Mkdir ".old" 448;
   syscall_PivotRoot "." ".old";
   syscall_Mount "" ".old" "" 278528 "";
   syscall_Unmount ".old" 2;
   os_Remove ".old"].

Definition dnsCalls : list call :=
  [os_Mkdir "etc" 493;
   ioutil_WriteFile "etc/resolv.conf" resolvConf 420].

Definition sandboxCalls (order : nat) (config : Config) : list call :=
  rootCalls ++ procCalls ++ tmpCalls ++ devCalls order
  ++ flat_map mountCalls (Mounts config) ++ pivotCalls ++ dnsCalls.

(** The bytes of the [Log] frames sent in a trace, in order. *)
Definition sentBytes (tr : list event) : list byte :=
  flat_map (fun e => match e with
                     | Sent (WLog _ Text) => list_byte_of_string Text
                     | _ => []
                     end) tr.

(** The requests handled and the [Result] frames sent in a trace. *)
Definition handledIn (tr : list event) : list (message * option error) :=
  omap (fun e => match e with
                 | Handled m err => Some (m, err)
                 | _ => None
                 end) tr.

Definition resultsIn (tr : list event) : list string :=
  omap (fun e => match e with
                 | Sent (WResult Error) => Some Error
                 | _ => None
                 end) tr.

Definition isRequest (m : message) : bool :=
  match m with
  | WExecute _ | WCopy _ _ | WInitFromDocker _ _ => true
  | _ => false
  end.

Definition errString (err : option error) : string :=
  match err with
  | Some e => Error e
  | None => ""
  end.

(** An environment in which every call succeeds, the shell prints
    nothing and the context is never cancelled. *)
Definition quiet : Env unit :=
  {| env_sys _ w := (None, w);
     env_Send _ w := (None, w);
     env_ctxErr w := (None, w);
     env_Exec _ _ := Exit None;
     env_Copy _ _ w := (None, w);
     env_Apply _ _ w := (None, w);
     env_mapOrder := 0%nat |}.

(** An environment in which requests fail: the shell prints a line and
    exits with an error, copying and image application fail. *)
Definition failing : Env unit :=
  {| env_sys _ w := (None, w);
     env_Send _ w := (None, w);
     env_ctxErr w := (None, w);
     env_Exec _ _ := Emit StreamOut [x68; x69] (fun _ => Exit (Some (ErrNew "exit status 1")));
     env_Copy _ _ w := (Some (Errno ENOENT), w);
     env_Apply _ _ w := (Some (Retryable (ErrNew "no token in response")), w);
     env_mapOrder := 0%nat |}.
(** Events a request handler may add: [Log] frames, sent or not. *)
Definition isLogEvent (e : event) : Prop :=
  match e with
  | Sent (WLog _ _) | SendFailed (WLog _ _) => True
  | _ => False
  end.

Definition isSys (e : event) : Prop :=
  match e with
  | Sys _ => True
  | _ => False
  end.

Definition boot : state unit := {| world := tt; trace := [] |}.

(** The configuration of scenario S1 with a read-only mount added. *)
Definition sampleConfig : Config :=
  {| Chroot := false;
     Mounts := [{| Host := "/tmp/m"; Container := "/test"; Writable := true |};
                {| Host := "/bin"; Container := "/bin"; Writable := false |}] |}.

(** A mount whose container path climbs out of the new root. *)
Definition escapingMount : Mount :=
  {| Host := "/h"; Container := "../outside"; Writable := true |}.
End executor.

(** ** The Docker layer applier *)

Module docker.

(** *** Tar headers ([archive/tar]) *)

Record Header := {
  Name : string;
  Linkname : string;
  Typeflag : Z;
  Mode : Z;
  Uid : Z;
  Gid : Z;
}.

Definition TypeReg : Z := 48.
Definition TypeLink : Z := 49.
Definition TypeSymlink : Z := 50.
Definition TypeChar : Z := 51.
Definition TypeBlock : Z := 52.
Definition TypeDir : Z := 53.
Definition TypeFifo : Z := 54.

(** Mode bits of a tar header (octal 04000, 02000, 01000 and the file
    type field) and of [fs.FileMode]. *)
Definition c_ISUID : Z := 2048.
Definition c_ISGID : Z := 1024.
Definition c_ISVTX : Z := 512.
Definition c_ISDIR : Z := 16384.
Definition c_ISFIFO : Z := 4096.
Definition c_ISLNK : Z := 40960.
Definition c_ISBLK : Z := 24576.
Definition c_ISCHR : Z := 8192.
Definition c_ISSOCK : Z := 49152.

Definition ModeDir : Z := 2 ^ 31.
Definition ModeSymlink : Z := 2 ^ 27.
Definition ModeDevice : Z := 2 ^ 26.
Definition ModeNamedPipe : Z := 2 ^ 25.
Definition ModeSocket : Z := 2 ^ 24.
Definition ModeSetuid : Z := 2 ^ 23.
Definition ModeSetgid : Z := 2 ^ 22.
Definition ModeCharDevice : Z := 2 ^ 21.
Definition ModeSticky : Z := 2 ^ 20.
Definition ModePerm : Z := 511.

Definition flagIf (b : bool) (bit : Z) : Z := if b then bit else 0.

(** [header.FileInfo().Mode()]: the permission bits, then setuid, setgid
    and sticky translated to their [fs.FileMode] bits, then the file type
    taken from the mode field and from the type flag. *)
Definition permBits (h : Header) : Z := Z.land (Mode h mod 2 ^ 32) ModePerm.

Definition specialBits (h : Header) : Z :=
  Z.lor (flagIf (negb (Z.land (Mode h) c_ISUID =? 0)) ModeSetuid)
    (Z.lor (flagIf (negb (Z.land (Mode h) c_ISGID =? 0)) ModeSetgid)
           (flagIf (negb (Z.land (Mode h) c_ISVTX =? 0)) ModeSticky)).

Definition typeFromMode (h : Header) : Z :=
  let fmt := Z.ldiff (Mode h mod 2 ^ 32) 4095 in
  if fmt =? c_ISDIR then ModeDir
  else if fmt =? c_ISFIFO then ModeNamedPipe
  else if fmt =? c_ISLNK then ModeSymlink
  else if fmt =? c_ISBLK then ModeDevice
  else if fmt =? c_ISCHR then Z.lor ModeDevice ModeCharDevice
  else if fmt =? c_ISSOCK then ModeSocket
  else 0.

Definition typeFromFlag (h : Header) : Z :=
  if Typeflag h =? TypeSymlink then ModeSymlink
  else if Typeflag h =? TypeChar then Z.lor ModeDevice ModeCharDevice
  else if Typeflag h =? TypeBlock then ModeDevice
  else if Typeflag h =? TypeDir then ModeDir
  else if Typeflag h =? TypeFifo then ModeNamedPipe
  else 0.

Definition FileInfoMode (h : Header) : Z :=
  Z.lor (Z.lor (Z.lor (permBits h) (specialBits h)) (typeFromMode h))
    (typeFromFlag h).

(** The bits of a [fs.FileMode] that [os.syscallMode] looks at. *)
Definition chmodMask : Z :=
  Z.lor ModePerm (Z.lor ModeSetuid (Z.lor ModeSetgid ModeSticky)).

(** [os.syscallMode]: what [os.Chmod], [os.OpenFile] and [os.MkdirAll]
    hand to the kernel for a [fs.FileMode]. *)
Definition syscallMode (i : Z) : Z :=
  Z.lor (Z.land i ModePerm)
    (Z.lor (flagIf (negb (Z.land i ModeSetuid =? 0)) c_ISUID)
       (Z.lor (flagIf (negb (Z.land i ModeSetgid =? 0)) c_ISGID)
              (flagIf (negb (Z.land i ModeSticky =? 0)) c_ISVTX))).

(** What one [tr.Next()] returns before the stream ends, with the data
    that follows the header and the error, if any, that reading the data
    runs into. *)
Record entry := {
  header : option Header;
  content : list byte;
  contentErr : option error;
}.

(** What the gzip and tar readers make of a blob: the answer of
    [gzip.NewReader], the entries, how [tr.Next()] ends ([None] is
    [io.EOF]), and how many bytes of the blob have been drawn through the
    tee reader by then. *)
Record Layer := {
  gzipErr : option error;
  entries : list entry;
  streamErr : option error;
  consumed : nat;
}.

(** *** HTTP *)

Record Request := { URL : string; Headers : list (string * string) }.

(** A response body delivers [raw] and then fails with [readErr] or
    ends. *)
Record Response := {
  StatusCode : Z;
  raw : list byte;
  readErr : option error;
}.

(** *** Calls into the file system *)

Inductive call :=
| os_RemoveAll (path : string)
| os_ReadDir (name : string)
| os_MkdirAll (path : string) (perm : Z)
| os_OpenFile (name : string) (flag perm : Z)
| io_Copy (name : string) (src : list byte)
| file_Close (name : string)
| os_Symlink (oldname newname : string)
| os_Link (oldname newname : string)
| os_Lchown (name : string) (uid gid : Z)
| os_Chmod (name : string) (mode : Z).

Definition O_WRONLY : Z := 1.
Definition O_CREATE : Z := 64.
Definition O_EXCL : Z := 128.

(** The environment of the applier. [env_fs] answers every call but
    [os.ReadDir], which [env_ReadDir] answers; [env_http] is
    [http.Client.Do]. The remaining fields are the pure library functions
    the applier relies on: SHA-256, the JSON decoding of the token and
    manifest documents, and the gzip and tar readers. *)
Class Env (S : Type) := {
  env_fs : call -> S -> option error * S;
  env_ReadDir : string -> S -> error + list string;
  env_http : Request -> S -> (error + Response) * S;
  env_sha256 : list byte -> list byte;
  env_jsonToken : list byte -> error + (string * string);
  env_jsonLayers : list byte -> error + list string;
  env_untar : Response -> Layer;
}.

Inductive event :=
| Fs (c : call)
| Http (r : Request)
| Sleep (seconds : Z).

Record state {S : Type} := { world : S; trace : list event }.
Arguments state : clear implicits.

(** How the body of the entry loop ends: [Stop] is a [return] with an
    error, [Next] goes on to the next header with the two sets
    [del] and [added]. *)
Inductive step :=
| Stop (err : error)
| Next (del added : gset string).

(** [hex.EncodeToString]. *)
Definition hexDigit (n : N) : ascii :=
  default "0"%char (String.get (N.to_nat n) "0123456789abcdef").

Fixpoint EncodeToString (src : list byte) : string :=
  match src with
  | [] => ""
  | b :: rest =>
      String (hexDigit (Byte.to_N b / 16))
        (String (hexDigit (Byte.to_N b mod 16)) (EncodeToString rest))
  end.

Section Applier.
Context {S : Type} `{Env S}.

Definition fs (c : call) : @M (state S) (option error) :=
  fun s => let (r, w) := env_fs c (world s) in
           (r, {| world := w; trace := trace s ++ [Fs c] |}).

Definition ReadDir (name : string) : @M (state S) (error + list string) :=
  fun s => (env_ReadDir name (world s),
            {| world := world s; trace := trace s ++ [Fs (os_ReadDir name)] |}).

Definition httpDo (r : Request) : @M (state S) (error + Response) :=
  fun s => let (res, w) := env_http r (world s) in
           (res, {| world := w; trace := trace s ++ [Http r] |}).

Definition sleep (seconds : Z) : @M (state S) unit :=
  fun s => (tt, {| world := world s; trace := trace s ++ [Sleep seconds] |}).

(** **** Retry helper *)

(** Modelled from the spec: the loop of [retry.Do] of package [lib/retry]
    (section 4.A), [retry.Retryable] being the constructor [Retryable]. The
    operation is run; a success or an error that is not marked retryable
    ends the loop at once; a retryable error is followed by a sleep of
    [delay] and another attempt while attempts remain, and the error of
    the last attempt surfaces. The operation is a closure: next to its
    error it yields the value it leaves in the variable it captures. *)
Fixpoint retryLoop {A} (more : nat) (delay : Z)
    (op : @M (state S) (A * option error)) : @M (state S) (A * option error) :=
  let* '(a, err) := op in
  match err, more with
  | Some (Retryable _), Datatypes.S more' =>
      let* _ := sleep delay in
      retryLoop more' delay op
  | _, _ => ret (a, err)
  end.

(** Modelled from the spec: [retry.Do] of package [lib/retry] (section
    4.A): up to [max_attempts] attempts. The specification does not say what
    zero attempts mean; the operation is then run once. *)
Definition Do {A} (max_attempts : nat) (delay : Z)
    (op : @M (state S) (A * option error)) : @M (state S) (A * option error) :=
  retryLoop (Nat.pred max_attempts) delay op.

(** **** Registry client *)

Definition authorize (imageName : string) : @M (state S) (string * option error) :=
  let* r := httpDo {| URL := "https://auth.docker.io/token?service=registry.docker.io&scope=repository:library/"
                             +:+ imageName +:+ ":pull";
                      Headers := [] |} in
  match r with
  | inl err => ret ("", Some (Retryable err))
  | inr resp =>
      if negb (StatusCode resp =? 200) then
        ret ("", Some (Retryable (ErrNew ("unexpected response status: "
                                          +:+ pretty (StatusCode resp)))))
      else
        match readErr resp with
        | Some err => ret ("", Some (Retryable err))
        | None =>
            match env_jsonToken (raw resp) with
            | inl err => ret ("", Some (Retryable err))
            | inr (Token, AccessToken) =>
                if negb (String.eqb Token "") then ret (Token, None)
                else if negb (String.eqb AccessToken "") then ret (AccessToken, None)
                else ret ("", Some (Retryable (ErrNew "no token in response")))
            end
        end
  end.

Definition layers (token image tag : string)
  : @M (state S) (list string * option error) :=
  let* r := httpDo {| URL := "https://registry-1.docker.io/v2/library/" +:+ image
                             +:+ "/manifests/" +:+ tag;
                      Headers := [("Accept", "application/vnd.docker.distribution.manifest.v2+json");
                                  ("Authorization", "Bearer " +:+ token)] |} in
  match r with
  | inl err => ret ([], Some (Retryable err))
  | inr resp =>
      if negb (StatusCode resp =? 200) then
        ret ([], Some (Retryable (ErrNew ("unexpected response status: "
                                          +:+ pretty (StatusCode resp)))))
      else
        match readErr resp with
        | Some err => ret ([], Some (Retryable err))
        | None =>
            match env_jsonLayers (raw resp) with
            | inl err => ret ([], Some (Retryable err))
            | inr digests => ret (digests, None)
            end
        end
  end.

(** **** Layer applier *)

(** The loop over the children of an opaque directory. *)
Fixpoint removeOthers (dir : string) (files : list string) (added : gset string)
  : @M (state S) (option error) :=
  match files with
  | [] => ret None
  | f :: rest =>
      let toDelete := filepath.Join [dir; f] in
      if bool_decide (toDelete ∈ added) then removeOthers dir rest added
      else
        check fs (os_RemoveAll toDelete) then
        removeOthers dir rest added
  end.

(** The cases of the switch that create the entry. *)
Definition create (h : Header) (e : entry) (mode : Z)
  : @M (state S) (option error) :=
  if Typeflag h =? TypeDir then fs (os_MkdirAll (Name h) mode)
  else if Typeflag h =? TypeReg then
    check fs (os_OpenFile (Name h) (Z.lor O_CREATE O_WRONLY) mode) then
    let* werr := fs (io_Copy (Name h) (content e)) in
    let* _ := fs (file_Close (Name h)) in
    ret (match werr with
         | Some err => Some err
         | None => contentErr e
         end)
  else if Typeflag h =? TypeSymlink then fs (os_Symlink (Linkname h) (Name h))
  else if Typeflag h =? TypeLink then
    let* r := fs (os_OpenFile (Linkname h) (Z.lor O_CREATE O_EXCL) mode) in
    match r with
    | Some err =>
        if negb (IsExist err) then ret (Some err)
        else fs (os_Link (Linkname h) (Name h))
    | None =>
        let* _ := fs (file_Close (Linkname h)) in
        fs (os_Link (Linkname h) (Name h))
    end
  else ret (Some (ErrNew ("unsupported file type: " +:+ pretty (Typeflag h)))).

(** What follows the switch: the entry is marked as added, then
    [Lchown], then, unless it is a symlink, [Chmod]. *)
Definition finish (h : Header) (mode : Z) (del added : gset string)
  : @M (state S) step :=
  let added := {[Name h]} ∪ added in
  let* r := fs (os_Lchown (Name h) (Uid h) (Gid h)) in
  match r with
  | Some err => ret (Stop err)
  | None =>
      if negb (Typeflag h =? TypeSymlink) then
        let* r := fs (os_Chmod (Name h) mode) in
        match r with
        | Some err => ret (Stop err)
        | None => ret (Next del added)
        end
      else ret (Next del added)
  end.

(** The switch of the loop body. *)
Definition applyHeader (h : Header) (e : entry) (del added : gset string)
  : @M (state S) step :=
  let mode := FileInfoMode h in
  let base := filepath.Base (Name h) in
  if String.eqb base ".wh..wh..plnk" then ret (Next del added)
  else if String.eqb base ".wh..wh..opq" then
    let dir := filepath.Dir (Name h) in
    let* r := ReadDir dir in
    match r with
    | inl err => ret (Stop err)
    | inr files =>
        let* r := removeOthers dir files added in
        match r with
        | Some err => ret (Stop err)
        | None => ret (Next del added)
        end
    end
  else if filepath.HasPrefix base ".wh." then
    let toDelete :=
      filepath.Join [filepath.Dir (Name h); filepath.TrimPrefix base ".wh."] in
    let added := added ∖ {[toDelete]} in
    let* r := fs (os_RemoveAll toDelete) in
    match r with
    | Some err =>
        if IsNotExist err then ret (Next ({[toDelete]} ∪ del) added)
        else ret (Stop err)
    | None => ret (Next del added)
    end
  else if bool_decide (Name h ∈ del) then
    ret (Next (del ∖ {[Name h]}) (added ∖ {[Name h]}))
  else
    let* r := create h e mode in
    match r with
    | Some err => ret (Stop err)
    | None => finish h mode del added
    end.

(** The body of the loop over the tar headers: a nil header is
    skipped; otherwise whatever is at the entry's name is removed
    first. *)
Definition applyEntry (e : entry) (del added : gset string)
  : @M (state S) step :=
  match header e with
  | None => ret (Next del added)
  | Some h =>
      let* r := fs (os_RemoveAll (Name h)) in
      match r with
      | Some err =>
          if negb (IsNotExist err) then ret (Stop err)
          else applyHeader h e del added
      | None => applyHeader h e del added
      end
  end.

(** The loop: [fin] is how [tr.Next()] ends, [None] being [io.EOF]. *)
Fixpoint applyEntries (es : list entry) (fin : option error)
    (del added : gset string) : @M (state S) step :=
  match es with
  | [] =>
      match fin with
      | None => ret (Next del added)
      | Some err => ret (Stop (Retryable err))
      end
  | e :: rest =>
      let* r := applyEntry e del added in
      match r with
      | Stop err => ret (Stop err)
      | Next del' added' => applyEntries rest fin del' added'
      end
  end.

(** The digest of the bytes drawn through the tee reader. *)
Definition computedDigest (resp : Response) : string :=
  "sha256:" +:+
  EncodeToString (env_sha256 (take (consumed (env_untar resp)) (raw resp))).

Definition increment (token imageName digest : string)
  : @M (state S) (option error) :=
  let* r := httpDo {| URL := "https://registry-1.docker.io/v2/library/"
                             +:+ imageName +:+ "/blobs/" +:+ digest;
                      Headers := [("Authorization", "Bearer " +:+ token)] |} in
  match r with
  | inl err => ret (Some (Retryable err))
  | inr resp =>
      if negb (StatusCode resp =? 200) then
        ret (Some (Retryable (ErrNew ("unexpected response status: "
                                      +:+ pretty (StatusCode resp)))))
      else
        match gzipErr (env_untar resp) with
        | Some err => ret (Some (Retryable err))
        | None =>
            let* r := applyEntries (entries (env_untar resp))
                        (streamErr (env_untar resp)) ∅ ∅ in
            match r with
            | Stop err => ret (Some err)
            | Next _ _ =>
                if negb (String.eqb (computedDigest resp) digest) then
                  ret (Some (Retryable (ErrNew
                    ("digest doesn't match, expected: " +:+ digest
                     +:+ ", got: " +:+ computedDigest resp))))
                else ret None
            end
        end
  end.

(** The closure handed to [retry.Do] for one layer. *)
Definition incrementOp (token image digest : string)
  : @M (state S) (unit * option error) :=
  let* err := increment token image digest in
  ret (tt, err).

Fixpoint applyLayers (token image : string) (l : list string)
  : @M (state S) (option error) :=
  match l with
  | [] => ret None
  | digest :: rest =>
      let* '(_, err) := Do 10 10 (incrementOp token image digest) in
      match err with
      | Some e => ret (Some e)
      | None => applyLayers token image rest
      end
  end.

Definition Apply (image tag : string) : @M (state S) (option error) :=
  let* '(token, err) := Do 10 5 (authorize image) in
  match err with
  | Some e => ret (Some e)
  | None =>
      let* '(l, err) := Do 10 5 (layers token image tag) in
      match err with
      | Some e => ret (Some e)
      | None => applyLayers token image l
      end
  end.
End Applier.
(** The names the loop body treats as markers rather than as entries to
    create. *)
Definition isMarker (name : string) : bool :=
  let base := filepath.Base name in
  String.eqb base ".wh..wh..plnk" || String.eqb base ".wh..wh..opq"
  || filepath.HasPrefix base ".wh.".

(** The calls that change the owner or the mode of a file. *)
Definition isMetadataCall (c : call) : bool :=
  match c with
  | os_Lchown _ _ _ | os_Chmod _ _ => true
  | _ => false
  end.

Definition touchesMetadata (e : event) : bool :=
  match e with
  | Fs c => isMetadataCall c
  | _ => false
  end.

(** The loop over the headers came to its end. *)
Definition finished (r : step) : bool :=
  match r with
  | Next _ _ => true
  | Stop _ => false
  end.

(** The request [increment] sends for a blob. *)
Definition blobRequest (token imageName digest : string) : Request :=
  {| URL := "https://registry-1.docker.io/v2/library/"
            +:+ imageName +:+ "/blobs/" +:+ digest;
     Headers := [("Authorization", "Bearer " +:+ token)] |}.
End docker.

(** ** An in-memory file system

    A model of the part of Linux and of Go's [os] package the applier
    talks to, used to state what the applier leaves on disk. The
    executor's working directory is the root of the file system (it has
    pivoted or chrooted into it), so rooted and relative names denote the
    same file. Names are resolved element by element: empty elements and
    [.] are skipped and [..] steps to the parent, the root being its own
    parent. Symbolic links are stored but never followed, the umask is
    zero, and the process is privileged. Hard links share an inode. *)

Module memfs.
Import docker.

Inductive kind :=
| KDir
| KFile (data : list byte)
| KSymlink (target : string).

Record inode := { ikind : kind; imode : Z; iuid : Z; igid : Z }.

Record t := { names : gmap (list string) nat; inodes : gmap nat inode }.

Definition empty : t := {| names := ∅; inodes := ∅ |}.

Definition resolve (name : string) : list string :=
  filepath.cleanElems true [] (filepath.split name).

Definition rootInode : inode :=
  {| ikind := KDir; imode := 493; iuid := 0; igid := 0 |}.

Definition stat (fs : t) (p : list string) : option inode :=
  match p with
  | [] => Some rootInode
  | _ => names fs !! p ≫= fun i => inodes fs !! i
  end.

Definition isDir (i : inode) : bool :=
  match ikind i with
  | KDir => true
  | _ => false
  end.

(** The proper prefixes of a path, the root included. *)
Definition ancestors (p : list string) : list (list string) :=
  map (fun n => take n p) (seq 0 (List.length p)).

(** Some ancestor exists and is not a directory. *)
Definition blocked (fs : t) (p : list string) : bool :=
  existsb (fun q => match stat fs q with
                    | Some i => negb (isDir i)
                    | None => false
                    end) (ancestors p).

(** The error of a call that needs the parent directory of [p]. *)
Definition parentErr (fs : t) (p : list string) : option error :=
  if blocked fs p then Some (Errno ENOTDIR)
  else match stat fs (removelast p) with
       | Some _ => None
       | None => Some (Errno ENOENT)
       end.

Definition alloc (fs : t) (p : list string) (i : inode) : t :=
  let n := fresh (dom (inodes fs)) in
  {| names := <[p := n]> (names fs); inodes := <[n := i]> (inodes fs) |}.

Definition update (fs : t) (p : list string) (f : inode -> inode) : t :=
  match names fs !! p with
  | Some n => {| names := names fs; inodes := alter f n (inodes fs) |}
  | None => fs
  end.

(** [os.endsWithDot]. *)
Definition endsWithDot (path : string) : bool :=
  match rev (list_ascii_of_string path) with
  | [c] => Ascii.eqb c "."%char
  | c :: d :: _ => Ascii.eqb c "."%char && filepath.isSep d
  | [] => false
  end.

(** [os.RemoveAll]: the empty path is accepted silently, a path ending
    in [.] is refused, a path that does not exist is not an error, and
    everything at and below the path is unlinked. Go's documentation:
    "If the path does not exist, RemoveAll returns nil (no error)." *)
Definition RemoveAll (path : string) (fs : t) : option error * t :=
  if String.eqb path "" then (None, fs)
  else if endsWithDot path then (Some (Errno EINVAL), fs)
  else
    let p := resolve path in
    match p with
    | [] => (Some (Errno EBUSY), fs)
    | _ =>
        if blocked fs p then (Some (Errno ENOTDIR), fs)
        else (None, {| names := filter (fun kv => ¬ (p `prefix_of` kv.1)) (names fs);
                       inodes := inodes fs |})
    end.

(** [os.MkdirAll]: every missing directory on the way is created with
    the given permission bits; a file in the way is [ENOTDIR]. *)
Fixpoint mkdirs (perm : Z) (done todo : list string) (fs : t) : option error * t :=
  match todo with
  | [] => (None, fs)
  | c :: rest =>
      let q := done ++ [c] in
      match stat fs q with
      | Some i =>
          if isDir i then mkdirs perm q rest fs
          else (Some (Errno ENOTDIR), fs)
      | None =>
          mkdirs perm q rest
            (alloc fs q {| ikind := KDir; imode := syscallMode perm;
                           iuid := 0; igid := 0 |})
      end
  end.

Definition MkdirAll (path : string) (perm : Z) (fs : t) : option error * t :=
  if String.eqb path "" then (Some (Errno ENOENT), fs)
  else mkdirs perm [] (resolve path) fs.

(** [os.OpenFile] for the two flag sets the applier uses,
    [O_CREATE|O_WRONLY] and [O_CREATE|O_EXCL]. *)
Definition OpenFile (name : string) (flag perm : Z) (fs : t) : option error * t :=
  if String.eqb name "" then (Some (Errno ENOENT), fs)
  else
    let p := resolve name in
    match parentErr fs p with
    | Some err => (Some err, fs)
    | None =>
        match stat fs p with
        | Some i =>
            if Z.testbit flag 7 then (Some (Errno EEXIST), fs)
            else if isDir i then (Some (Errno EISDIR), fs)
            else (None, fs)
        | None =>
            if Z.testbit flag 6 then
              (None, alloc fs p {| ikind := KFile []; imode := syscallMode perm;
                                   iuid := 0; igid := 0 |})
            else (Some (Errno ENOENT), fs)
        end
    end.

(** [io.Copy] into the file opened at [name]: the data overwrites the
    file from its start. *)
Definition Copy (name : string) (src : list byte) (fs : t) : option error * t :=
  let p := resolve name in
  match stat fs p with
  | Some {| ikind := KFile old |} =>
      (None, update fs p (fun i =>
         {| ikind := KFile (src ++ drop (List.length src) old);
            imode := imode i; iuid := iuid i; igid := igid i |}))
  | _ => (Some (Errno EINVAL), fs)
  end.

Definition Symlink (oldname newname : string) (fs : t) : option error * t :=
  if String.eqb newname "" then (Some (Errno ENOENT), fs)
  else
    let p := resolve newname in
    match parentErr fs p with
    | Some err => (Some err, fs)
    | None =>
        match stat fs p with
        | Some _ => (Some (Errno EEXIST), fs)
        | None => (None, alloc fs p {| ikind := KSymlink oldname; imode := 511;
                                       iuid := 0; igid := 0 |})
        end
    end.

Definition Link (oldname newname : string) (fs : t) : option error * t :=
  if String.eqb oldname "" || String.eqb newname "" then (Some (Errno ENOENT), fs)
  else
    let po := resolve oldname in
    let pn := resolve newname in
    match names fs !! po, stat fs po with
    | Some n, Some i =>
        if isDir i then (Some (Errno EPERM), fs)
        else
          match parentErr fs pn with
          | Some err => (Some err, fs)
          | None =>
              match stat fs pn with
              | Some _ => (Some (Errno EEXIST), fs)
              | None => (None, {| names := <[pn := n]> (names fs);
                                  inodes := inodes fs |})
              end
          end
    | _, Some _ => (Some (Errno EPERM), fs)
    | _, None => (Some (Errno ENOENT), fs)
    end.

(** A change of owner clears the setuid bit of anything but a
    directory, and its setgid bit when it is group-executable. *)
Definition killSuid (i : inode) : Z :=
  if isDir i then imode i
  else
    let m := Z.ldiff (imode i) c_ISUID in
    if Z.testbit m 10 && Z.testbit m 3 then Z.ldiff m c_ISGID else m.

Definition Lchown (name : string) (uid gid : Z) (fs : t) : option error * t :=
  if String.eqb name "" then (Some (Errno ENOENT), fs)
  else
    let p := resolve name in
    match stat fs p with
    | Some _ =>
        (None, update fs p (fun i =>
           {| ikind := ikind i; imode := killSuid i; iuid := uid; igid := gid |}))
    | None => (Some (Errno ENOENT), fs)
    end.

Definition Chmod (name : string) (mode : Z) (fs : t) : option error * t :=
  if String.eqb name "" then (Some (Errno ENOENT), fs)
  else
    let p := resolve name in
    match stat fs p with
    | Some _ =>
        (None, update fs p (fun i =>
           {| ikind := ikind i; imode := syscallMode mode;
              iuid := iuid i; igid := igid i |}))
    | None => (Some (Errno ENOENT), fs)
    end.

Fixpoint stripPrefix (p q : list string) : option (list string) :=
  match p, q with
  | [], _ => Some q
  | a :: p', b :: q' => if String.eqb a b then stripPrefix p' q' else None
  | _ :: _, [] => None
  end.

Definition childName (p q : list string) : option string :=
  match stripPrefix p q with
  | Some [c] => Some c
  | _ => None
  end.

Fixpoint insertName (x : string) (l : list string) : list string :=
  match l with
  | [] => [x]
  | y :: l' => if String.leb x y then x :: l else y :: insertName x l'
  end.

Definition sortNames (l : list string) : list string := foldr insertName [] l.

(** The names of the direct children of [p], sorted. *)
Definition children (fs : t) (p : list string) : list string :=
  sortNames (omap (fun kv => childName p kv.1) (map_to_list (names fs))).

(** [os.ReadDir]: the entries of the directory, sorted by name. *)
Definition ReadDir (name : string) (fs : t) : error + list string :=
  if String.eqb name "" then inl (Errno ENOENT)
  else
    let p := resolve name in
    if blocked fs p then inl (Errno ENOTDIR)
    else match stat fs p with
         | Some i => if isDir i then inr (children fs p) else inl (Errno ENOTDIR)
         | None => inl (Errno ENOENT)
         end.

(** The paths an opaque marker in [dir] sweeps away, given the entries
    [files] of the directory and the set [added]: everything at or below
    the joined path of an entry that is not in [added]. *)
Definition swept (dir : string) (files : list string) (added : gset string)
    (q : list string) : bool :=
  existsb (fun f =>
             negb (bool_decide (filepath.Join [dir; f] ∈ added))
             && bool_decide (resolve (filepath.Join [dir; f]) `prefix_of` q))
          files.

Definition exec (c : call) (fs : t) : option error * t :=
  match c with
  | os_RemoveAll path => RemoveAll path fs
  | os_ReadDir _ => (None, fs)
  | os_MkdirAll path perm => MkdirAll path perm fs
  | os_OpenFile name flag perm => OpenFile name flag perm fs
  | io_Copy name src => Copy name src fs
  | file_Close _ => (None, fs)
  | os_Symlink oldname newname => Symlink oldname newname fs
  | os_Link oldname newname => Link oldname newname fs
  | os_Lchown name uid gid => Lchown name uid gid fs
  | os_Chmod name mode => Chmod name mode fs
  end.

(** A machine: a disk and the responses the network will give, in
    order. The codec functions are parameters of the instance. *)
Record machine := { disk : t; network : list (error + Response) }.

Definition http (r : Request) (m : machine) : (error + Response) * machine :=
  match network m with
  | [] => (inl (Errno EIO), m)
  | x :: rest => (x, {| disk := disk m; network := rest |})
  end.

Definition machineEnv (sha256 : list byte -> list byte)
    (untar : Response -> Layer) : Env machine :=
  {| env_fs c m := let (r, d) := exec c (disk m) in
                   (r, {| disk := d; network := network m |});
     env_ReadDir name m := ReadDir name (disk m);
     env_http := http;
     env_sha256 := sha256;
     env_jsonToken _ := inr ("token", "");
     env_jsonLayers _ := inr [];
     env_untar := untar |}.

End memfs.

(** ** Test data *)

Module fixtures.
Import docker memfs.

Definition regular (name : string) (data : list byte) : entry :=
  {| header := Some {| Name := name; Linkname := ""; Typeflag := TypeReg;
                       Mode := 420; Uid := 0; Gid := 0 |};
     content := data; contentErr := None |}.

Definition directory (name : string) : entry :=
  {| header := Some {| Name := name; Linkname := ""; Typeflag := TypeDir;
                       Mode := 493; Uid := 0; Gid := 0 |};
     content := []; contentErr := None |}.

(** A toy codec: the hash of a blob is the blob itself, and a blob
    unpacks to one regular file [blob] holding its bytes. *)
Definition untarOne (resp : Response) : Layer :=
  {| gzipErr := None; entries := [regular "blob" (raw resp)];
     streamErr := None; consumed := List.length (raw resp) |}.

Definition toy : Env machine := machineEnv (fun bs => bs) untarOne.

Definition boot (responses : list (error + Response)) : state machine :=
  {| world := {| disk := memfs.empty; network := responses |}; trace := [] |}.

Definition ok (bytes : list byte) : error + Response :=
  inr {| StatusCode := 200; raw := bytes; readErr := None |}.

(** The disk after a layer has been applied to the empty disk. *)
Definition after (layer : list entry) : state machine :=
  (@applyEntries machine toy layer None ∅ ∅ (boot [])).2.

(** A setuid binary, mode 04755. *)
Definition suHeader : Header :=
  {| Name := "bin/su"; Linkname := ""; Typeflag := TypeReg;
     Mode := 2541; Uid := 0; Gid := 0 |}.

Definition su : entry :=
  {| header := Some suHeader; content := [x7f]; contentErr := None |}.

(** A blob that does not have the wanted digest, and the registry once
    it has served it. *)
Definition wanted : string := "sha256:02".

Definition corrupt : Response :=
  {| StatusCode := 200; raw := [x01]; readErr := None |}.


Definition etcHeader : Header :=
  {| Name := "etc"; Linkname := ""; Typeflag := TypeDir;
     Mode := 493; Uid := 0; Gid := 0 |}.

(** The disk after a first layer with [etc/hosts]. *)
Definition lower : state machine :=
  after [directory "etc"; regular "etc/hosts" [x41]].
End fixtures.

(** ** Views of the executor's trace *)

Module transcript.
Import executor.

(** The system calls of a trace, in order. *)
Definition sysIn (tr : list event) : list call :=
  omap (fun e => match e with
                 | Sys c => Some c
                 | _ => None
                 end) tr.

Definition sameStream (a b : Stream) : bool :=
  match a, b with
  | StreamOut, StreamOut | StreamErr, StreamErr => true
  | _, _ => false
  end.

(** The bytes of the [Log] frames of one stream that went out. *)
Definition logsOn (st : Stream) (tr : list event) : list byte :=
  flat_map (fun e => match e with
                     | Sent (WLog st' Text) =>
                         if sameStream st st' then list_byte_of_string Text else []
                     | _ => []
                     end) tr.

(** The texts of the [Log] frames handed to [client.Send], sent or
    not. *)
Definition logTexts (tr : list event) : list string :=
  omap (fun e => match e with
                 | Sent (WLog _ Text) | SendFailed (WLog _ Text) => Some Text
                 | _ => None
                 end) tr.

(** A [Log] frame handed to [client.Send], sent or not, whose text is
    not empty. *)
Definition carriesText (e : event) : Prop :=
  match e with
  | Sent (WLog _ Text) | SendFailed (WLog _ Text) => Text <> ""
  | _ => False
  end.

(** What a process writes to one of its streams, and how it exits, when
    none of its writes fails. *)
Fixpoint written (st : Stream) (p : proc) : list byte :=
  match p with
  | Exit _ => []
  | Emit st' data k =>
      (if sameStream st st' then data else []) ++ written st (k None)
  end.

Fixpoint exitError (p : proc) : option error :=
  match p with
  | Exit e => e
  | Emit _ _ k => exitError (k None)
  end.

(** The calls whose [os.IsExist] failure the sandbox construction lets
    pass: every [os.Mkdir] but that of [.old], and [os.MkdirAll]. *)
Definition tolerated (c : call) : bool :=
  match c with
  | os_Mkdir name _ => negb (String.eqb name ".old")
  | os_MkdirAll _ _ => true
  | _ => false
  end.

(** The mounts of a call sequence that carry [MS_RDONLY], as pairs of
    source and target. *)
Definition readOnlyMounts (cs : list call) : list (string * string) :=
  omap (fun c => match c with
                 | syscall_Mount source target _ flags _ =>
                     if Z.land flags MS_RDONLY =? 0 then None
                     else Some (source, target)
                 | _ => None
                 end) cs.

(** An environment like [quiet] in which the directories the sandbox
    needs are there already. *)
Definition revisited : Env unit :=
  {| env_sys c w := (if tolerated c then Some (Errno EEXIST) else None, w);
     env_Send _ w := (None, w);
     env_ctxErr w := (None, w);
     env_Exec _ _ := Exit None;
     env_Copy _ _ w := (None, w);
     env_Apply _ _ w := (None, w);
     env_mapOrder := 0%nat |}.

(** An environment in which no directory can be made. *)
Definition readOnlyHost : Env unit :=
  {| env_sys c w := (match c with
                     | os_Mkdir _ _ => Some (Errno EROFS)
                     | _ => None
                     end, w);
     env_Send _ w := (None, w);
     env_ctxErr w := (None, w);
     env_Exec _ _ := Exit None;
     env_Copy _ _ w := (None, w);
     env_Apply _ _ w := (None, w);
     env_mapOrder := 0%nat |}.

(** An environment like [quiet] whose context has been cancelled. *)
Definition cancelled : Env unit :=
  {| env_sys _ w := (None, w);
     env_Send _ w := (None, w);
     env_ctxErr w := (Some Canceled, w);
     env_Exec _ _ := Exit None;
     env_Copy _ _ w := (None, w);
     env_Apply _ _ w := (None, w);
     env_mapOrder := 0%nat |}.

(** A shell command that prints to both streams and fails. *)
Definition chatty : proc :=
  Emit StreamOut [x6f; x6b] (fun _ =>
  Emit StreamErr [x6e; x6f] (fun _ =>
  Emit StreamOut [x21] (fun _ => Exit (Some (ErrNew "exit status 2"))))).

Definition talkative : Env unit :=
  {| env_sys _ w := (None, w);
     env_Send _ w := (None, w);
     env_ctxErr w := (None, w);
     env_Exec _ _ := chatty;
     env_Copy _ _ w := (None, w);
     env_Apply _ _ w := (None, w);
     env_mapOrder := 0%nat |}.
End transcript.

(** ** Views of the applier's trace *)

Module ledger.
Import docker.

(** The file-system calls of a trace, in order. *)
Definition fsIn (tr : list event) : list call :=
  omap (fun e => match e with
                 | Fs c => Some c
                 | _ => None
                 end) tr.

(** The calls that only remove or list. *)
Definition isRemoval (c : call) : bool :=
  match c with
  | os_RemoveAll _ | os_ReadDir _ => true
  | _ => false
  end.

(** The type flags the switch of the loop body has a case for. *)
Definition supported (h : Header) : bool :=
  (Typeflag h =? TypeDir) || (Typeflag h =? TypeReg)
  || (Typeflag h =? TypeSymlink) || (Typeflag h =? TypeLink).

(** The requests [authorize] and [layers] send. *)
Definition tokenRequest (imageName : string) : Request :=
  {| URL := "https://auth.docker.io/token?service=registry.docker.io&scope=repository:library/"
            +:+ imageName +:+ ":pull";
     Headers := [] |}.

Definition manifestRequest (token image tag : string) : Request :=
  {| URL := "https://registry-1.docker.io/v2/library/" +:+ image
            +:+ "/manifests/" +:+ tag;
     Headers := [("Accept", "application/vnd.docker.distribution.manifest.v2+json");
                 ("Authorization", "Bearer " +:+ token)] |}.

(** The blob of a response cannot be fetched or unpacked. *)
Definition unusable {S} `{Env S} (r : error + Response) : bool :=
  match r with
  | inl _ => true
  | inr resp =>
      negb (StatusCode resp =? 200)
      || bool_decide (gzipErr (env_untar resp) <> None)
  end.
End ledger.

(** ** More test data *)

Module samples.
Import docker memfs fixtures.

(** A file owned by user 1000, a symbolic link, a hard link to the
    setuid binary, a whiteout and a named pipe. *)
Definition motdHeader : Header :=
  {| Name := "etc/motd"; Linkname := ""; Typeflag := TypeReg;
     Mode := 416; Uid := 1000; Gid := 100 |}.

Definition motd : entry :=
  {| header := Some motdHeader; content := [x68; x69]; contentErr := None |}.

Definition shHeader : Header :=
  {| Name := "bin/sh"; Linkname := "busybox"; Typeflag := TypeSymlink;
     Mode := 420; Uid := 7; Gid := 8 |}.

Definition sh : entry :=
  {| header := Some shHeader; content := []; contentErr := None |}.

Definition sudoHeader : Header :=
  {| Name := "bin/sudo"; Linkname := "bin/su"; Typeflag := TypeLink;
     Mode := 2541; Uid := 0; Gid := 4 |}.

Definition sudo : entry :=
  {| header := Some sudoHeader; content := []; contentErr := None |}.

Definition hideHeader : Header :=
  {| Name := "etc/.wh.hosts"; Linkname := ""; Typeflag := TypeReg;
     Mode := 0; Uid := 0; Gid := 0 |}.

Definition hide : entry :=
  {| header := Some hideHeader; content := []; contentErr := None |}.

Definition pipeHeader : Header :=
  {| Name := "etc/hosts"; Linkname := ""; Typeflag := TypeFifo;
     Mode := 420; Uid := 0; Gid := 0 |}.

Definition pipe : entry :=
  {| header := Some pipeHeader; content := []; contentErr := None |}.

(** The disk after a first layer with the setuid binary. *)
Definition tools : state machine := after [directory "bin"; su].
End samples.

(** * Properties *)

(** Rows of the test table of Go's [path/filepath]. *)
Example Clean_table :
  map filepath.Clean
    [""; "abc"; "abc/def"; "."; ".."; "../../abc"; "/abc"; "/"; "abc/";
     "./"; "../../"; "/abc/"; "abc//def//ghi"; "///abc"; "abc/./def";
     "abc/def/ghi/../jkl"; "abc/def/../.."; "/abc/def/../.."; "abc/def/../../..";
     "/abc/def/../../.."; "abc/def/../../../ghi/jkl/../../../mno"; "/../abc";
     "abc/../../././../def"]
  = ["."; "abc"; "abc/def"; "."; ".."; "../../abc"; "/abc"; "/"; "abc";
     "."; "../.."; "/abc"; "abc/def/ghi"; "/abc"; "abc/def";
     "abc/def/jkl"; "."; "/"; "..";
     "/"; "../../mno"; "/abc";
     "../../def"].
Proof. reflexivity. Qed.

Example Join_table :
  map filepath.Join
    [[]; [""]; ["a"]; ["a"; "b"]; ["a"; ""]; [""; "b"]; ["/"; "a"]; ["a/"; "b"];
     ["."; "/etc/passwd"]; ["."; "../x"]; [""; ""]]
  = [""; ""; "a"; "a/b"; "a"; "b"; "/a"; "a/b"; "etc/passwd"; "../x"; ""].
Proof. reflexivity. Qed.

(** The examples of the documentation of [filepath.Join]. *)
Example Join_documented :
  map filepath.Join
    [["a"; "b"; "c"]; ["a"; "b/c"]; ["a/b"; "c"]; ["a/b"; "/c"];
     ["a/b"; "../../../xyz"]]
  = ["a/b/c"; "a/b/c"; "a/b/c"; "a/b/c"; "../xyz"].
Proof. reflexivity. Qed.

Example Dir_Base_table :
  map filepath.Dir [""; "a"; "a/b"; "a/b/"; "/a"; "/"; "a/.wh..wh..opq"; "./x"]
  = ["."; "."; "a"; "a/b"; "/"; "/"; "a"; "."]
  /\ map filepath.Base [""; "a"; "a/b"; "a/b/"; "/a"; "/"; "//"; "a/.wh.b"]
  = ["."; "a"; "b"; "b"; "a"; "/"; "/"; ".wh.b"].
Proof. split; reflexivity. Qed.


(** ** Paths *)

Section PathFacts.
Import filepath.

Lemma split_unrooted s : Forall (fun x => rooted x = false) (split s).
Proof.
  induction s as [|c s IH]; cbn [split]; [by repeat constructor|].
  destruct (isSep c) eqn:Hc; [by constructor|].
  destruct (split s) as [|x xs]; [by repeat constructor|].
  inversion IH; subst. by constructor.
Qed.

Lemma cleanElems_unrooted r elems : forall out,
  Forall (fun x => x <> "" /\ rooted x = false) out ->
  Forall (fun x => rooted x = false) elems ->
  Forall (fun x => x <> "" /\ rooted x = false) (cleanElems r out elems).
Proof.
  induction elems as [|e rest IH]; intros out Hout Hel; cbn [cleanElems].
  - by apply Forall_rev.
  - inversion Hel as [|? ? He Hrest]; subst.
    destruct (String.eqb_spec e ""); cbn [orb]; [by apply IH|].
    destruct (String.eqb_spec e "."); [by apply IH|].
    destruct (String.eqb_spec e "..").
    + destruct out as [|o out'].
      * destruct r; apply IH; first [done | by repeat constructor].
      * destruct (String.eqb o ".."); apply IH;
          first [done | by constructor | by inversion Hout].
    + apply IH; [|done]. by constructor.
Qed.

Lemma join_unrooted elems :
  Forall (fun x => x <> "" /\ rooted x = false) elems -> rooted (join elems) = false.
Proof.
  destruct elems as [|x xs]; [done|]. intros Hx.
  inversion Hx as [|? ? [Hne Hr] _]; subst. cbn [join].
  destruct xs; [done|]. by destruct x.
Qed.

Lemma Clean_unrooted path : rooted path = false -> rooted (Clean path) = false.
Proof.
  unfold Clean. intros Hr. destruct (String.eqb path ""); [done|]. rewrite Hr.
  destruct (String.eqb _ ""); [done|].
  apply join_unrooted, cleanElems_unrooted; [constructor | apply split_unrooted].
Qed.

(** Whatever the container path, the mount target [applyMounts] computes
    is a relative path. *)
Lemma Join_dot_relative c : rooted (Join ["."; c]) = false.
Proof. cbn [Join String.eqb Ascii.eqb Bool.eqb]. by apply Clean_unrooted. Qed.
End PathFacts.

(** ** The executor *)

Section ExecutorFacts.
Import executor.
Context {W : Type} `{Env W}.

Lemma obeys_ret : obeys (W:=W) (ret None) [].
Proof. intros s. exists []. cbn. rewrite app_nil_r. done. Qed.

Lemma obeys_sys c : obeys (W:=W) (sys c) [c].
Proof.
  intros s. exists [c]. unfold sys. destruct (env_sys c (world s)); cbn. done.
Qed.

Lemma obeys_check c wrap k l1 l2 :
  obeys (W:=W) c l1 -> obeys (W:=W) k l2 -> obeys (W:=W) (orReturn c wrap k) (l1 ++ l2).
Proof.
  intros Hc Hk s. unfold orReturn, bind.
  destruct (Hc s) as (cs1 & Ht1 & Hp1 & Hs1).
  destruct (c s) as [[e|] s1]; cbn in *.
  - exists cs1. split; [done|]. split; [by apply prefix_app_r|done].
  - rewrite (Hs1 eq_refl) in Ht1. clear Hs1 Hp1.
    destruct (Hk s1) as (cs2 & Ht2 & Hp2 & Hs2).
    exists (l1 ++ cs2). rewrite Ht2, Ht1, map_app, <- app_assoc.
    split; [done|]. split; [by apply prefix_app|].
    intros Hn. by rewrite (Hs2 Hn).
Qed.

Lemma obeys_tolerate c k l :
  obeys (W:=W) k l -> obeys (W:=W) (orReturnUnlessExist (sys c) k) (c :: l).
Proof.
  intros Hk s. unfold orReturnUnlessExist, bind, sys.
  destruct (env_sys c (world s)) as [r w].
  set (s1 := {| world := w; trace := trace s ++ [Sys c] |}).
  assert (Hgo : exists cs, trace (k s1).2 = trace s ++ map Sys cs /\
                  cs `prefix_of` c :: l /\ ((k s1).1 = None -> cs = c :: l)).
  { destruct (Hk s1) as (cs2 & Ht2 & Hp2 & Hs2).
    exists (c :: cs2). rewrite Ht2. cbn. rewrite <- app_assoc.
    split; [done|]. split; [by apply (prefix_app [c])|].
    intros Hn. by rewrite (Hs2 Hn). }
  destruct r as [e|]; [destruct (IsExist e)|]; try exact Hgo.
  exists [c]. cbn. split; [done|]. split; [|done].
  apply (prefix_app [c] [] l), prefix_nil.
Qed.

Lemma obeys_script c l l' : obeys (W:=W) c l -> l = l' -> obeys (W:=W) c l'.
Proof. by intros ? <-. Qed.

Ltac script :=
  repeat first
    [ apply obeys_tolerate
    | apply obeys_check
    | apply obeys_sys
    | apply obeys_ret ].

Lemma prepareNewRoot_obeys : obeys (W:=W) prepareNewRoot rootCalls.
Proof.
  eapply obeys_script.
  - unfold prepareNewRoot. script.
  - reflexivity.
Qed.

Lemma mountProc_obeys : obeys (W:=W) mountProc procCalls.
Proof. eapply obeys_script; [unfold mountProc; script | reflexivity]. Qed.

Lemma mountTmp_obeys : obeys (W:=W) mountTmp tmpCalls.
Proof. eapply obeys_script; [unfold mountTmp; script | reflexivity]. Qed.

Lemma makeLinks_obeys ls : obeys (W:=W) (makeLinks "dev" ls) (map linkCall ls).
Proof.
  induction ls as [|[newName oldName] ls IH]; cbn [makeLinks map].
  - apply obeys_ret.
  - apply (obeys_check _ _ _ [_] _); [apply obeys_sys | exact IH].
Qed.

Lemma populateDev_obeys : obeys (W:=W) populateDev (devCalls env_mapOrder).
Proof.
  eapply obeys_script.
  - unfold populateDev, devices. cbn [bindDevices].
    apply obeys_tolerate, obeys_check; [apply obeys_sys|].
    apply obeys_check; [script | apply makeLinks_obeys].
  - reflexivity.
Qed.

Lemma applyMounts_obeys mounts :
  obeys (W:=W) (applyMounts mounts) (flat_map mountCalls mounts).
Proof.
  induction mounts as [|m mounts IH]; cbn [applyMounts flat_map].
  - apply obeys_ret.
  - unfold mountCalls at 1. destruct (Writable m).
    + eapply obeys_script.
      * apply obeys_tolerate, obeys_check; [apply obeys_sys | exact IH].
      * by rewrite app_nil_r.
    + eapply obeys_script.
      * apply obeys_tolerate, obeys_check; [apply obeys_sys |].
        apply obeys_check; [apply obeys_sys | exact IH].
      * reflexivity.
Qed.

Lemma pivotRoot_obeys : obeys (W:=W) pivotRoot pivotCalls.
Proof. eapply obeys_script; [unfold pivotRoot; script | reflexivity]. Qed.

Lemma configureDNS_obeys : obeys (W:=W) configureDNS dnsCalls.
Proof. eapply obeys_script; [unfold configureDNS; script | reflexivity]. Qed.

Lemma buildSandbox_obeys config :
  obeys (W:=W) (buildSandbox config) (sandboxCalls env_mapOrder config).
Proof.
  eapply obeys_script.
  - unfold buildSandbox.
    apply obeys_check; [apply prepareNewRoot_obeys|].
    apply obeys_check; [apply mountProc_obeys|].
    apply obeys_check; [apply mountTmp_obeys|].
    apply obeys_check; [apply populateDev_obeys|].
    apply obeys_check; [apply applyMounts_obeys|].
    apply obeys_check; [apply pivotRoot_obeys|].
    apply obeys_check; [apply configureDNS_obeys|].
    apply obeys_ret.
  - unfold sandboxCalls. by rewrite app_nil_r.
Qed.
End ExecutorFacts.

Section DispatchFacts.
Import executor.
Context {W : Type} `{Env W}.

Lemma Send_log_trace st txt (s : state W) :
  exists e, trace (Send (WLog st txt) s).2 = trace s ++ [e] /\ isLogEvent e.
Proof.
  unfold Send. destruct (env_Send _ _) as [[err|] w]; cbn; eexists; split; done.
Qed.

Lemma Write_trace lt data (s : state W) :
  exists new, trace (Write lt data s).2 = trace s ++ new /\ Forall isLogEvent new.
Proof.
  unfold Write. destruct (_ <? _)%nat; cbn.
  - exists []. by rewrite app_nil_r.
  - unfold bind.
    destruct (Send_log_trace (stream lt) (string_of_list_byte (buf lt ++ data)) s)
      as (e & Ht & He).
    destruct (Send _ s) as [[err|] s1]; cbn in *; exists [e]; split; auto.
Qed.

Lemma Flush_trace lt (s : state W) :
  exists new, trace (Flush lt s).2 = trace s ++ new /\ Forall isLogEvent new.
Proof.
  unfold Flush. destruct (_ =? _)%nat; cbn.
  - exists []. by rewrite app_nil_r.
  - unfold bind.
    destruct (Send_log_trace (stream lt) (string_of_list_byte (buf lt)) s)
      as (e & Ht & He).
    destruct (Send _ s) as [[err|] s1]; cbn in *; exists [e]; split; auto.
Qed.

Lemma pump_trace p : forall out err (s : state W),
  exists new, trace (pump p out err s).2 = trace s ++ new /\ Forall isLogEvent new.
Proof.
  induction p as [e|st data k IH]; intros out err s.
  - exists []. cbn. by rewrite app_nil_r.
  - destruct st; cbn [pump]; unfold bind.
    + destruct (Write_trace out data s) as (n1 & Ht1 & Hl1).
      destruct (Write out data s) as [[out' [n werr]] s1]; cbn in *.
      destruct (IH werr out' err s1) as (n2 & Ht2 & Hl2).
      exists (n1 ++ n2). rewrite Ht2, Ht1, <- app_assoc.
      split; [done | by apply Forall_app].
    + destruct (Write_trace err data s) as (n1 & Ht1 & Hl1).
      destruct (Write err data s) as [[err' [n werr]] s1]; cbn in *.
      destruct (IH werr out err' s1) as (n2 & Ht2 & Hl2).
      exists (n1 ++ n2). rewrite Ht2, Ht1, <- app_assoc.
      split; [done | by apply Forall_app].
Qed.

Lemma execute_trace cmd (s : state W) :
  exists new, trace (execute cmd s).2 = trace s ++ new /\ Forall isLogEvent new.
Proof.
  unfold execute, bind, lift. cbn.
  set (s0 := {| world := world s; trace := trace s |}).
  destruct (pump_trace (env_Exec cmd (world s))
              {| stream := StreamOut; buf := [] |}
              {| stream := StreamErr; buf := [] |} s0) as (n1 & Ht1 & Hl1).
  destruct (pump _ _ _ s0) as [[e [out err]] s1]; cbn in *.
  destruct (Flush_trace out s1) as (n2 & Ht2 & Hl2).
  destruct (Flush out s1) as [r2 s2]; cbn in *.
  destruct (Flush_trace err s2) as (n3 & Ht3 & Hl3).
  destruct (Flush err s2) as [r3 s3]; cbn in *.
  exists (n1 ++ n2 ++ n3). rewrite Ht3, Ht2, Ht1, <- !app_assoc.
  split; [done|]. by repeat apply Forall_app_2.
Qed.

Lemma handler_trace msg handle (s : state W) :
  handler msg = Some handle ->
  exists new, trace (handle s).2 = trace s ++ new /\ Forall isLogEvent new.
Proof.
  destruct msg; cbn; intros [= <-].
  - apply execute_trace.
  - unfold lift. destruct (env_Copy _ _ _). exists []. cbn. by rewrite app_nil_r.
  - unfold lift. destruct (env_Apply _ _ _). exists []. cbn. by rewrite app_nil_r.
Qed.

Lemma logs_handledIn new : Forall isLogEvent new -> handledIn new = [].
Proof.
  induction 1 as [|e new He _ IH]; [done|].
  unfold handledIn in *. cbn. rewrite IH. by destruct e as [| | [] | [] |].
Qed.

Lemma logs_resultsIn new : Forall isLogEvent new -> resultsIn new = [].
Proof.
  induction 1 as [|e new He _ IH]; [done|].
  unfold resultsIn in *. cbn. rewrite IH. by destruct e as [| | [] | [] |].
Qed.

Lemma logs_not_sys new : Forall isLogEvent new -> Forall (fun e => ~ isSys e) new.
Proof. intros Hl. eapply Forall_impl; [exact Hl|]. intros e He Hs. destruct e as [c| |m|m|r err]; cbn in *; try done. Qed.

Lemma ctxErr_trace (s : state W) : trace (ctxErr s).2 = trace s.
Proof. unfold ctxErr. by destruct (env_ctxErr _). Qed.

Lemma loop_nil fin (s : state W) :
  loop [] fin s =
  let (cancelled, s1) := ctxErr s in
  if bool_decide (cancelled <> None) || isEOF fin then ctxErr s1
  else (Some (Wrap "receiving message failed" fin), s1).
Proof.
  cbn [loop]. unfold bind. destruct (ctxErr s) as [c s1].
  by destruct (_ || _).
Qed.

Lemma loop_cons msg rest fin handle (s : state W) :
  handler msg = Some handle ->
  loop (msg :: rest) fin s =
  let (err, s1) := handle s in
  let s2 := {| world := world s1; trace := trace s1 ++ [Handled msg err] |} in
  match Send (WResult (errString err)) s2 with
  | (Some x, s3) => (Some (Wrap "command status reporting failed" x), s3)
  | (None, s3) => loop rest fin s3
  end.
Proof.
  intros Hh. cbn [loop]. rewrite Hh. unfold bind, orReturn, record.
  destruct (handle s) as [err s1]. cbn. unfold bind, errString.
  by destruct (Send _ _) as [[x|] s3].
Qed.

Lemma Send_trace m (s : state W) :
  exists e, trace (Send m s).2 = trace s ++ [e] /\ ~ isSys e.
Proof.
  unfold Send. destruct (env_Send _ _) as [[err|] w]; cbn; eexists;
    (split; [done | cbn; tauto]).
Qed.

(** The dispatch loop makes no system call of its own. *)
Lemma loop_no_sys inbox fin : forall s : state W,
  exists new, trace (loop inbox fin s).2 = trace s ++ new /\
              Forall (fun e => ~ isSys e) new.
Proof.
  induction inbox as [|msg rest IH]; intros s.
  - exists []. rewrite app_nil_r, loop_nil. split; [|done].
    pose proof (ctxErr_trace s) as H1.
    destruct (ctxErr s) as [c s1]; cbn in *.
    destruct (_ || _); cbn; [|done].
    by rewrite ctxErr_trace.
  - destruct (handler msg) as [handle|] eqn:Hh.
    + rewrite (loop_cons _ _ _ _ _ Hh).
      destruct (handler_trace msg handle s Hh) as (n1 & Ht1 & Hl1).
      destruct (handle s) as [err s1]; cbn in Ht1. cbn zeta.
      match goal with |- context [Send ?m ?st] =>
        destruct (Send_trace m st) as (e & Ht2 & He);
        destruct (Send m st) as [r s2] end.
      cbn in Ht2. rewrite Ht1, <- !app_assoc in Ht2.
      destruct r as [x|]; cbn.
      * exists (n1 ++ [Handled msg err] ++ [e]).
        split; [done|]. apply Forall_app_2; [by apply logs_not_sys|].
        repeat constructor; auto.
      * destruct (IH s2) as (n3 & Ht3 & Hl3).
        exists (n1 ++ [Handled msg err] ++ [e] ++ n3).
        rewrite Ht3, Ht2, <- !app_assoc. split; [done|].
        apply Forall_app_2; [by apply logs_not_sys|].
        repeat constructor; auto.
    + exists []. cbn [loop]. rewrite Hh. cbn. by rewrite app_nil_r.
Qed.


Lemma ctxErr_quiet (s : state W) :
  (forall w, (env_ctxErr w).1 = None) ->
  exists w, ctxErr s = (None, {| world := w; trace := trace s |}).
Proof.
  intros Hctx. unfold ctxErr. specialize (Hctx (world s)).
  destruct (env_ctxErr _) as [r w]; cbn in *. subst r. by exists w.
Qed.

End DispatchFacts.

Section RunFacts.
Import executor.
Context {W : Type} `{Env W}.

Lemma rangeOrder_Permutation {A} (n : nat) (l : list A) : rangeOrder n l ≡ₚ l.
Proof.
  unfold rangeOrder. destruct (permutations l !! _) as [l'|] eqn:Hl; cbn; [|done].
  symmetry. apply permutations_Permutation. by eapply list_elem_of_lookup_2.
Qed.



(** C8: when the first frame is not a [Config] message, or receiving it
    fails, [Run] returns an error and leaves the state as it found it: no
    system call has been made, nothing has been sent and no request has
    been handled. *)
Theorem Run_requires_Config inbox fin (s : state W) :
  (forall config, head inbox <> Some (WConfig config)) ->
  exists e, Run inbox fin s = (Some e, s).
Proof.
  intros Hfirst. destruct inbox as [|[] rest]; cbn; eauto.
  by destruct (Hfirst config).
Qed.

Lemma Write_below lt data (s : state W) :
  (List.length (buf lt) + List.length data < 100)%nat ->
  Write lt data s =
  (({| stream := stream lt; buf := buf lt ++ data |},
    (Z.of_nat (List.length data), None)), s).
Proof.
  intros Hlt. unfold Write.
  destruct (Nat.ltb_spec (List.length (buf lt) + List.length data) 100); [done|lia].
Qed.

Lemma Write_reach lt data (s : state W) r w :
  (100 <= List.length (buf lt) + List.length data)%nat ->
  env_Send (WLog (stream lt) (string_of_list_byte (buf lt ++ data))) (world s) = (r, w) ->
  Write lt data s =
  match r with
  | None =>
      (({| stream := stream lt; buf := [] |}, (Z.of_nat (List.length data), None)),
       {| world := w;
          trace := trace s ++ [Sent (WLog (stream lt)
                                       (string_of_list_byte (buf lt ++ data)))] |})
  | Some e =>
      ((lt, (0, Some e)),
       {| world := w;
          trace := trace s ++ [SendFailed (WLog (stream lt)
                                             (string_of_list_byte (buf lt ++ data)))] |})
  end.
Proof.
  intros Hge Hsend. unfold Write.
  destruct (Nat.ltb_spec (List.length (buf lt) + List.length data) 100); [lia|].
  unfold bind, Send. rewrite Hsend. by destruct r.
Qed.

Lemma Flush_empty lt (s : state W) : buf lt = [] -> Flush lt s = ((lt, None), s).
Proof. intros Hb. unfold Flush. by rewrite Hb. Qed.

Lemma Flush_residual lt (s : state W) r w :
  buf lt <> [] ->
  env_Send (WLog (stream lt) (string_of_list_byte (buf lt))) (world s) = (r, w) ->
  Flush lt s =
  match r with
  | None =>
      (({| stream := stream lt; buf := [] |}, None),
       {| world := w;
          trace := trace s ++ [Sent (WLog (stream lt) (string_of_list_byte (buf lt)))] |})
  | Some e =>
      ((lt, Some e),
       {| world := w;
          trace := trace s ++ [SendFailed (WLog (stream lt)
                                             (string_of_list_byte (buf lt)))] |})
  end.
Proof.
  intros Hne Hsend. unfold Flush.
  destruct (buf lt) as [|b bs] eqn:Hb; [done|]. cbn [List.length Nat.eqb].
  unfold bind, Send. rewrite Hsend. by destruct r.
Qed.

Lemma sentBytes_app a b : sentBytes (a ++ b) = sentBytes a ++ sentBytes b.
Proof. unfold sentBytes. by rewrite flat_map_app. Qed.

Lemma writeSeq_bytes chunks : forall lt (s : state W),
  (forall m w, (env_Send m w).1 = None) ->
  (List.length (buf lt) < 100)%nat ->
  sentBytes (trace (writeSeq lt chunks s).2) ++ buf (writeSeq lt chunks s).1
  = sentBytes (trace s) ++ buf lt ++ List.concat chunks /\
  (List.length (buf (writeSeq lt chunks s).1) < 100)%nat /\
  stream (writeSeq lt chunks s).1 = stream lt.
Proof.
  induction chunks as [|data rest IH]; intros lt s Hsend Hlt; cbn [writeSeq List.concat].
  - cbn. by rewrite app_nil_r.
  - unfold bind.
    destruct (Nat.lt_ge_cases (List.length (buf lt) + List.length data) 100) as [Hb|Hb].
    + rewrite (Write_below _ _ _ Hb).
      destruct (IH {| stream := stream lt; buf := buf lt ++ data |} s Hsend)
        as (IH1 & IH2 & IH3); [cbn; by rewrite length_app|].
      cbn in *. by rewrite IH1, <- app_assoc.
    + pose proof (Hsend (WLog (stream lt) (string_of_list_byte (buf lt ++ data)))
                    (world s)) as Hok.
      destruct (env_Send _ (world s)) as [r w] eqn:Hs. cbn in Hok. subst r.
      rewrite (Write_reach _ _ _ _ _ Hb Hs).
      match goal with |- context [writeSeq ?l rest ?st] =>
        destruct (IH l st Hsend) as (IH1 & IH2 & IH3); [cbn; lia|] end.
      cbn in *. rewrite IH1, sentBytes_app. cbn.
      rewrite list_byte_of_string_of_list_byte, app_nil_r, <- !app_assoc. done.
Qed.

(** C7: a [Write] that leaves the accumulated length below 100 only
    appends to the buffer. A [Write] that brings it to 100 or more sends
    exactly one [Log] frame whose text is the buffered bytes followed by
    the new data, and empties the buffer when the frame went out (a
    failed send reports the error and keeps the buffer). [Flush] sends
    nothing for an empty buffer and one [Log] frame with the residual
    bytes otherwise. Over any sequence of writes with working sends, the
    bytes sent followed by the buffer are the bytes written, in order,
    and the buffer stays below 100 bytes. *)
Theorem logTransmitter_buffers_to_100 lt data (s : state W) :
  let total := (List.length (buf lt) + List.length data)%nat in
  let frame := WLog (stream lt) (string_of_list_byte (buf lt ++ data)) in
  let residual := WLog (stream lt) (string_of_list_byte (buf lt)) in
  ((total < 100)%nat ->
   Write lt data s =
   (({| stream := stream lt; buf := buf lt ++ data |},
     (Z.of_nat (List.length data), None)), s)) /\
  ((100 <= total)%nat ->
   forall r w, env_Send frame (world s) = (r, w) ->
   Write lt data s =
   match r with
   | None => (({| stream := stream lt; buf := [] |},
               (Z.of_nat (List.length data), None)),
              {| world := w; trace := trace s ++ [Sent frame] |})
   | Some e => ((lt, (0, Some e)),
                {| world := w; trace := trace s ++ [SendFailed frame] |})
   end) /\
  list_byte_of_string (string_of_list_byte (buf lt ++ data)) = buf lt ++ data /\
  (buf lt = [] -> Flush lt s = ((lt, None), s)) /\
  (buf lt <> [] ->
   forall r w, env_Send residual (world s) = (r, w) ->
   Flush lt s =
   match r with
   | None => (({| stream := stream lt; buf := [] |}, None),
              {| world := w; trace := trace s ++ [Sent residual] |})
   | Some e => ((lt, Some e),
                {| world := w; trace := trace s ++ [SendFailed residual] |})
   end) /\
  (forall chunks,
     (forall m w, (env_Send m w).1 = None) ->
     (List.length (buf lt) < 100)%nat ->
     sentBytes (trace (writeSeq lt chunks s).2) ++ buf (writeSeq lt chunks s).1
     = sentBytes (trace s) ++ buf lt ++ List.concat chunks /\
     (List.length (buf (writeSeq lt chunks s).1) < 100)%nat).
Proof.
  cbn zeta. repeat split.
  - apply Write_below.
  - intros. by apply Write_reach.
  - apply list_byte_of_string_of_list_byte.
  - apply Flush_empty.
  - intros. by apply Flush_residual.
  - by apply writeSeq_bytes.
  - by apply writeSeq_bytes.
Qed.
End RunFacts.

Section ExecutorWitnesses.
Import executor.


(** The calls of a successful run on the sample configuration. *)
Example Run_sample_trace :
  @Run unit quiet [WConfig sampleConfig; WExecute "echo hello"] EOF boot
  = (None,
     {| world := tt;
        trace := NewHTTPClient
                 :: map Sys (sandboxCalls 0 sampleConfig)
                 ++ [Handled (WExecute "echo hello") None; Sent (WResult "")] |}).
Proof. vm_compute. reflexivity. Qed.

Lemma Run_requires_Config_witness :
  (forall config, head [WExecute "id"; WConfig sampleConfig] <> Some (WConfig config)) /\
  exists e, @Run unit quiet [WExecute "id"; WConfig sampleConfig] EOF boot = (Some e, boot).
Proof.
  split; [intros config; discriminate|].
  apply (@Run_requires_Config unit quiet [WExecute "id"; WConfig sampleConfig] EOF boot).
  intros config; discriminate.
Defined.


(** Three failing requests: each gets its [Result] with the handler's
    error text, and the loop ends cleanly on end of input. *)
Example loop_failing_trace :
  @loop unit failing [WExecute "false"; WCopy "/a" "/b"; WInitFromDocker "alpine" "3.18"] EOF boot
  = (None,
     {| world := tt;
        trace := [Sent (WLog StreamOut "hi");
                  Handled (WExecute "false") (Some (ErrNew "exit status 1"));
                  Sent (WResult "exit status 1");
                  Handled (WCopy "/a" "/b") (Some (Errno ENOENT));
                  Sent (WResult "no such file or directory");
                  Handled (WInitFromDocker "alpine" "3.18")
                    (Some (Retryable (ErrNew "no token in response")));
                  Sent (WResult "no token in response")] |}).
Proof. vm_compute. reflexivity. Qed.

(** Scenario 8 of the specification: 99 bytes accumulate, the hundredth
    byte makes one frame of all hundred, and a flush after 99 bytes sends
    them. *)
Example hundredth_byte_emits :
  let lt := {| stream := StreamErr; buf := [] |} in
  let quietly := @writeSeq unit quiet lt [replicate 99 x61] boot in
  let loudly := @writeSeq unit quiet lt [replicate 99 x61; [x62]] boot in
  trace quietly.2 = [] /\ buf quietly.1 = replicate 99 x61 /\
  trace loudly.2
  = [Sent (WLog StreamErr (string_of_list_byte (replicate 99 x61 ++ [x62])))] /\
  buf loudly.1 = [] /\
  trace (@Flush unit quiet quietly.1 quietly.2).2
  = [Sent (WLog StreamErr (string_of_list_byte (replicate 99 x61)))] /\
  @Flush unit quiet loudly.1 loudly.2 = ((loudly.1, None), loudly.2).
Proof. vm_compute. repeat split. Qed.

(** C1: evaluation at a mount whose container path is [../outside].
    [filepath.Join(".", "../outside")] is [../outside]: the directory is
    created and the host path mounted at the parent of the new root, not
    below it. An absolute path is made relative ([/etc/passwd] becomes
    [etc/passwd]), but [..] elements at its start survive the same
    way. *)
Theorem applyMounts_escapes_root :
  @applyMounts unit quiet [escapingMount] boot
  = (None,
     {| world := tt;
        trace := [Sys (os_MkdirAll "../outside" 448);
                  Sys (syscall_Mount "/h" "../outside" "" 266240 "")] |})
  /\ filepath.isLocal "../outside" = false
  /\ filepath.Join ["."; "/etc/passwd"] = "etc/passwd"
  /\ filepath.Join ["."; "/../../etc"] = "../../etc".
Proof. vm_compute. repeat split. Qed.
End ExecutorWitnesses.

Section ModeBits.
Import docker.

Lemma land_pow2 m k :
  0 <= k -> Z.land m (2 ^ k) = if Z.testbit m k then 2 ^ k else 0.
Proof.
  intros Hk. apply Z.bits_inj'. intros n Hn. rewrite Z.land_spec.
  destruct (Z.testbit m k) eqn:Hb.
  - rewrite Z.pow2_bits_eqb by done.
    destruct (Z.eqb_spec k n); subst; rewrite ?Hb, ?andb_false_r; done.
  - rewrite Z.bits_0, Z.pow2_bits_eqb by done.
    destruct (Z.eqb_spec k n); subst; rewrite ?Hb, ?andb_false_r; done.
Qed.

Lemma land_submask b mask k :
  Z.land b mask = 0 -> Z.land mask k = k -> Z.land b k = 0.
Proof. intros Hb Hk. by rewrite <- Hk, Z.land_assoc, Hb. Qed.

Lemma typeFromMode_clear h : Z.land (typeFromMode h) chmodMask = 0.
Proof. unfold typeFromMode. by repeat case_match. Qed.

Lemma typeFromFlag_clear h : Z.land (typeFromFlag h) chmodMask = 0.
Proof. unfold typeFromFlag. by repeat case_match. Qed.

Lemma syscallMode_mask i : syscallMode i = syscallMode (Z.land i chmodMask).
Proof.
  unfold syscallMode. rewrite <- !Z.land_assoc.
  by change (Z.land chmodMask ModePerm) with ModePerm;
     change (Z.land chmodMask ModeSetuid) with ModeSetuid;
     change (Z.land chmodMask ModeSetgid) with ModeSetgid;
     change (Z.land chmodMask ModeSticky) with ModeSticky.
Qed.

Lemma FileInfoMode_masked h :
  Z.land (FileInfoMode h) chmodMask
  = Z.lor (Z.land (Mode h) 511) (specialBits h).
Proof.
  unfold FileInfoMode. rewrite !Z.land_lor_distr_l.
  rewrite typeFromMode_clear, typeFromFlag_clear, !Z.lor_0_r. f_equal.
  - unfold permBits. rewrite <- Z.land_ones by done. rewrite <- !Z.land_assoc.
    reflexivity.
  - unfold specialBits, flagIf. by repeat case_match.
Qed.

(** What [os.Chmod] hands to the kernel for the mode of a tar header is
    the header's permission, setuid, setgid and sticky bits. *)
Lemma syscallMode_FileInfoMode h :
  syscallMode (FileInfoMode h) = Z.land (Mode h) 4095.
Proof.
  rewrite syscallMode_mask, FileInfoMode_masked.
  change 4095 with (Z.lor 511 (Z.lor (2 ^ 11) (Z.lor (2 ^ 10) (2 ^ 9)))).
  rewrite !Z.land_lor_distr_r, !land_pow2 by done.
  unfold syscallMode, specialBits.
  change c_ISUID with (2 ^ 11). change c_ISGID with (2 ^ 10).
  change c_ISVTX with (2 ^ 9). rewrite !land_pow2 by done.
  rewrite !Z.land_lor_distr_l, <- !Z.land_assoc.
  destruct (Z.testbit (Mode h) 11), (Z.testbit (Mode h) 10),
    (Z.testbit (Mode h) 9); cbn [negb flagIf Z.eqb];
    rewrite ?Z.land_0_r, ?Z.lor_0_r; reflexivity.
Qed.
End ModeBits.

(** ** The layer applier *)

Section ApplierFacts.
Import docker.
Context {S : Type} `{Env S}.

Lemma fs_trace c (s : state S) : trace (fs c s).2 = trace s ++ [Fs c].
Proof. unfold fs. by destruct (env_fs c (world s)). Qed.

(** The creating cases make no call that changes owner or mode. *)
Lemma create_no_metadata h e mode (s : state S) :
  exists pre, trace (create h e mode s).2 = trace s ++ pre /\
              Forall (fun ev => touchesMetadata ev = false) pre.
Proof.
  unfold create.
  destruct (Typeflag h =? TypeDir); [|destruct (Typeflag h =? TypeReg);
    [|destruct (Typeflag h =? TypeSymlink); [|destruct (Typeflag h =? TypeLink)]]].
  - exists [Fs (os_MkdirAll (Name h) mode)]. rewrite fs_trace. by repeat constructor.
  - unfold orReturn, bind.
    pose proof (fs_trace (os_OpenFile (Name h) (Z.lor O_CREATE O_WRONLY) mode) s) as H1.
    destruct (fs _ s) as [[err|] s1]; cbn in *.
    + eexists. split; [exact H1|]. by repeat constructor.
    + pose proof (fs_trace (io_Copy (Name h) (content e)) s1) as H2.
      destruct (fs _ s1) as [werr s2]; cbn in *.
      pose proof (fs_trace (file_Close (Name h)) s2) as H3.
      destruct (fs _ s2) as [cerr s3]; cbn in *.
      eexists. rewrite H3, H2, H1, <- !app_assoc. split; [done|].
      by repeat constructor.
  - exists [Fs (os_Symlink (Linkname h) (Name h))]. rewrite fs_trace.
    by repeat constructor.
  - unfold bind.
    pose proof (fs_trace (os_OpenFile (Linkname h) (Z.lor O_CREATE O_EXCL) mode) s) as H1.
    destruct (fs _ s) as [[err|] s1]; cbn in *.
    + destruct (IsExist err); cbn.
      * eexists. rewrite fs_trace, H1, <- !app_assoc. split; [done|].
        by repeat constructor.
      * eexists. split; [exact H1|]. by repeat constructor.
    + unfold bind.
      pose proof (fs_trace (file_Close (Linkname h)) s1) as H2.
      destruct (fs _ s1) as [cerr s2]; cbn in *.
      eexists. rewrite fs_trace, H2, H1, <- !app_assoc. split; [done|].
      by repeat constructor.
  - exists []. cbn. by rewrite app_nil_r.
Qed.

Lemma applyHeader_creates h e del added :
  isMarker (Name h) = false -> Name h ∉ del ->
  applyHeader h e del added =
  (let* r := create h e (FileInfoMode h) in
   match r with
   | Some err => ret (Stop err)
   | None => finish h (FileInfoMode h) del added
   end).
Proof.
  unfold isMarker, applyHeader. intros Hm Hd.
  apply orb_false_elim in Hm as [Hm H3]. apply orb_false_elim in Hm as [H1 H2].
  rewrite H1, H2, H3. by rewrite bool_decide_eq_false_2.
Qed.

Lemma finish_Next h mode del added del' added' (s s' : state S) :
  finish h mode del added s = (Next del' added', s') ->
  trace s' = trace s ++
    Fs (os_Lchown (Name h) (Uid h) (Gid h))
    :: (if Typeflag h =? TypeSymlink then [] else [Fs (os_Chmod (Name h) mode)])
  /\ del' = del /\ added' = {[Name h]} ∪ added.
Proof.
  unfold finish, bind.
  pose proof (fs_trace (os_Lchown (Name h) (Uid h) (Gid h)) s) as H1.
  destruct (fs _ s) as [[err|] s1]; cbn in *; [done|].
  destruct (Typeflag h =? TypeSymlink); cbn.
  - intros [= <- <- <-]. done.
  - pose proof (fs_trace (os_Chmod (Name h) mode) s1) as H2.
    destruct (fs _ s1) as [[err|] s2]; cbn in *; [done|].
    intros [= <- <- <-]. by rewrite H2, H1, <- app_assoc.
Qed.

(** An entry whose name is pending deletion is skipped: after the
    [RemoveAll] every entry starts with, the name leaves both sets and no
    further call is made. *)
Lemma applyEntry_pending_skipped e h del added (s : state S) :
  header e = Some h ->
  isMarker (Name h) = false ->
  Name h ∈ del ->
  (fs (os_RemoveAll (Name h)) s).1 = None ->
  applyEntry e del added s =
  (Next (del ∖ {[Name h]}) (added ∖ {[Name h]}), (fs (os_RemoveAll (Name h)) s).2).
Proof.
  intros Hh Hm Hd Hrm. unfold applyEntry. rewrite Hh. unfold bind.
  destruct (fs (os_RemoveAll (Name h)) s) as [r s1]; cbn in *. subst r.
  unfold isMarker in Hm. unfold applyHeader.
  apply orb_false_elim in Hm as [Hm H3]. apply orb_false_elim in Hm as [H1 H2].
  rewrite H1, H2, H3. by rewrite bool_decide_eq_true_2.
Qed.

(** A whiteout records its target as pending deletion when, and only
    when, [RemoveAll] of the target fails with an error that satisfies
    [os.IsNotExist]. *)
Lemma applyEntry_whiteout e h del added (s : state S) :
  let base := filepath.Base (Name h) in
  let toDelete :=
    filepath.Join [filepath.Dir (Name h); filepath.TrimPrefix base ".wh."] in
  let s1 := (fs (os_RemoveAll (Name h)) s).2 in
  header e = Some h ->
  String.eqb base ".wh..wh..plnk" = false ->
  String.eqb base ".wh..wh..opq" = false ->
  filepath.HasPrefix base ".wh." = true ->
  (fs (os_RemoveAll (Name h)) s).1 = None ->
  applyEntry e del added s =
  (match (fs (os_RemoveAll toDelete) s1).1 with
   | Some err =>
       if IsNotExist err then Next ({[toDelete]} ∪ del) (added ∖ {[toDelete]})
       else Stop err
   | None => Next del (added ∖ {[toDelete]})
   end, (fs (os_RemoveAll toDelete) s1).2).
Proof.
  intros base toDelete s1 Hh H1 H2 H3 Hrm. subst s1. unfold applyEntry.
  rewrite Hh. unfold bind.
  destruct (fs (os_RemoveAll (Name h)) s) as [r s1]; cbn [fst snd] in *. subst r.
  unfold applyHeader. fold base. rewrite H1, H2, H3. fold toDelete. unfold bind.
  destruct (fs (os_RemoveAll toDelete) s1) as [[err|] s2]; cbn [fst snd]; [|done].
  by destruct (IsNotExist err).
Qed.

Lemma applyEntry_metadata_last e h del added del' added' (s s' : state S) :
  header e = Some h ->
  isMarker (Name h) = false ->
  Name h ∉ del ->
  applyEntry e del added s = (Next del' added', s') ->
  exists pre,
    trace s' = trace s ++ pre ++
      Fs (os_Lchown (Name h) (Uid h) (Gid h))
      :: (if Typeflag h =? TypeSymlink then []
          else [Fs (os_Chmod (Name h) (FileInfoMode h))]) /\
    Forall (fun ev => touchesMetadata ev = false) pre.
Proof.
  intros Hh Hm Hd. unfold applyEntry. rewrite Hh. unfold bind.
  pose proof (fs_trace (os_RemoveAll (Name h)) s) as H1.
  destruct (fs _ s) as [r s1]; cbn in H1.
  assert (applyHeader h e del added s1 = (Next del' added', s') ->
          exists pre,
            trace s' = trace s ++ pre ++
              Fs (os_Lchown (Name h) (Uid h) (Gid h))
              :: (if Typeflag h =? TypeSymlink then []
                  else [Fs (os_Chmod (Name h) (FileInfoMode h))]) /\
            Forall (fun ev => touchesMetadata ev = false) pre) as Hgo.
  { rewrite (applyHeader_creates _ _ _ _ Hm Hd). unfold bind.
    destruct (create_no_metadata h e (FileInfoMode h) s1) as (pre & H2 & Hpre).
    destruct (create _ _ _ s1) as [[err|] s2]; cbn in *; [done|].
    intros Hf. apply finish_Next in Hf as (H3 & _ & _).
    exists (Fs (os_RemoveAll (Name h)) :: pre).
    rewrite H3, H2, H1, <- !app_assoc. split; [done|].
    by constructor. }
  destruct r as [err|]; [destruct (negb (IsNotExist err))|]; try exact Hgo.
  done.
Qed.

(** C3: for an entry the applier creates (its name is not a marker and
    not pending deletion) and whose processing succeeds, the calls end
    with [Lchown] with the header's uid and gid, followed for anything but
    a symlink by [Chmod] with the header's mode as the very last call, and
    followed by nothing for a symlink; no call before them changes owner
    or mode, so a symlink is never chmod-ed. The mode [Chmod] hands to the
    kernel is the header's permission, setuid, setgid and sticky bits. *)
Theorem applyEntry_chown_then_chmod e h del added (s : state S) :
  let run := applyEntry e del added s in
  header e = Some h ->
  isMarker (Name h) = false ->
  Name h ∉ del ->
  finished run.1 = true ->
  exists pre,
    trace run.2 = trace s ++ pre ++
      Fs (os_Lchown (Name h) (Uid h) (Gid h))
      :: (if Typeflag h =? TypeSymlink then []
          else [Fs (os_Chmod (Name h) (FileInfoMode h))]) /\
    Forall (fun ev => touchesMetadata ev = false) pre /\
    syscallMode (FileInfoMode h) = Z.land (Mode h) 4095.
Proof.
  intros run Hh Hm Hd Hfin. subst run.
  destruct (applyEntry e del added s) as [[err|del' added'] s'] eqn:Hrun; [done|].
  destruct (applyEntry_metadata_last _ _ _ _ _ _ _ _ Hh Hm Hd Hrun) as (pre & Ht & Hp).
  exists pre. split; [done|]. split; [done|]. apply syscallMode_FileInfoMode.
Qed.

End ApplierFacts.

(** ** The in-memory file system *)

Section MemfsFacts.
Import docker memfs.

Lemma RemoveAll_never_NotExist path fs err fs' :
  RemoveAll path fs = (Some err, fs') -> IsNotExist err = false.
Proof.
  unfold RemoveAll. repeat case_match; by intros [= <- <-].
Qed.

Lemma RemoveAll_None path fs fs' :
  RemoveAll path fs = (None, fs') ->
  (path = "" /\ fs' = fs) \/
  (path <> "" /\ resolve path <> [] /\
   fs' = {| names := filter (fun kv => ¬ (resolve path `prefix_of` kv.1)) (names fs);
            inodes := inodes fs |}).
Proof.
  unfold RemoveAll. destruct (String.eqb_spec path ""); [intros [= <-]; by left|].
  destruct (endsWithDot path); [done|].
  destruct (resolve path) as [|c p] eqn:Hp; [done|].
  destruct (blocked fs (c :: p)); [done|]. intros [= <-]. right. done.
Qed.

Lemma stat_alloc fs q i : q <> [] -> stat (alloc fs q i) q = Some i.
Proof.
  intros Hq. unfold stat, alloc. destruct q; [done|]. cbn.
  rewrite lookup_insert_eq. cbn. by rewrite lookup_insert_eq.
Qed.

Lemma names_alloc_ne fs q i q' :
  q' <> q -> names (alloc fs q i) !! q' = names fs !! q'.
Proof. intros Hne. unfold alloc. cbn. by rewrite lookup_insert_ne. Qed.

(** [mkdirs] only adds names between [done] and [done ++ todo], and on
    success, started in a directory, it ends in one. *)
Lemma mkdirs_spec perm todo : forall done fs fs',
  mkdirs perm done todo fs = (None, fs') ->
  (forall q, names fs' !! q = names fs !! q \/
             (done `prefix_of` q /\ q `prefix_of` done ++ todo /\ q <> done)) /\
  (forall i, stat fs done = Some i -> isDir i = true ->
             exists i', stat fs' (done ++ todo) = Some i' /\ isDir i' = true).
Proof.
  induction todo as [|c rest IH]; intros done fs fs'; cbn [mkdirs].
  - intros [= <-]. split; [by left|]. intros i Hi Hd. rewrite app_nil_r. eauto.
  - set (q0 := done ++ [c]).
    assert (Hq0 : q0 <> []) by (unfold q0; by destruct done).
    assert (Hstep : forall fs1,
               (forall q, names fs1 !! q = names fs !! q \/ q = q0) ->
               (exists i, stat fs1 q0 = Some i /\ isDir i = true) ->
               mkdirs perm q0 rest fs1 = (None, fs') ->
               (forall q, names fs' !! q = names fs !! q \/
                          (done `prefix_of` q /\ q `prefix_of` done ++ c :: rest
                           /\ q <> done)) /\
               (forall i, stat fs done = Some i -> isDir i = true ->
                exists i', stat fs' (done ++ c :: rest) = Some i' /\ isDir i' = true)).
    { intros fs1 Hn1 (i1 & Hi1 & Hd1) Hm. apply IH in Hm as [Hn Hd].
      replace (done ++ c :: rest) with (q0 ++ rest)
        by (unfold q0; by rewrite <- app_assoc).
      split; [|intros _ _ _; by eapply Hd].
      intros q. destruct (Hn q) as [Heq|(Hp1 & Hp2 & Hne)].
      - rewrite Heq. destruct (Hn1 q) as [->| ->]; [by left|]. right.
        split; [by apply prefix_app_r|]. split; [by apply prefix_app_r|].
        unfold q0. intros Heq'. apply (f_equal List.length) in Heq'.
        rewrite length_app in Heq'. cbn in Heq'. lia.
      - right. split; [|split; [done|]].
        + etrans; [|exact Hp1]. by apply prefix_app_r.
        + intros ->. apply prefix_length in Hp1. unfold q0 in Hp1.
          rewrite length_app in Hp1. cbn in Hp1. lia. }
    destruct (stat fs q0) as [i|] eqn:Hst.
    + destruct (isDir i) eqn:Hdir; [|done].
      intros Hm. apply (Hstep fs); [by left | by exists i | done].
    + intros Hm. eapply Hstep; [| |exact Hm].
      * intros q. destruct (decide (q = q0)) as [->|Hne]; [by right|].
        left. by apply names_alloc_ne.
      * eexists. split; [by apply stat_alloc|done].
Qed.

Lemma names_update fs p f : names (update fs p f) = names fs.
Proof. unfold update. by destruct (names fs !! p). Qed.

Lemma stat_update fs p f q i :
  (forall j, ikind (f j) = ikind j) ->
  stat fs q = Some i ->
  exists i', stat (update fs p f) q = Some i' /\ isDir i' = isDir i.
Proof.
  intros Hf. unfold stat, update. destruct q as [|c q]; [by eauto|].
  revert i.
  destruct (names fs !! p) as [n|] eqn:Hp; [|by eauto]. cbn.
  destruct (names fs !! (c :: q)) as [m|] eqn:Hq; [|done]. cbn.
  intros i Hi. rewrite lookup_alter. case_decide; [subst|]; rewrite Hi; cbn.
  - eexists. split; [done|]. unfold isDir. by rewrite Hf.
  - eauto.
Qed.

Lemma Lchown_None name uid gid fs fs' :
  Lchown name uid gid fs = (None, fs') ->
  names fs' = names fs /\
  forall q i, stat fs q = Some i ->
              exists i', stat fs' q = Some i' /\ isDir i' = isDir i.
Proof.
  unfold Lchown. destruct (String.eqb name ""); [done|].
  destruct (stat fs (resolve name)); [|done]. intros [= <-].
  split; [apply names_update|]. intros q j. by apply stat_update.
Qed.

Lemma Chmod_None name mode fs fs' :
  Chmod name mode fs = (None, fs') ->
  names fs' = names fs /\
  forall q i, stat fs q = Some i ->
              exists i', stat fs' q = Some i' /\ isDir i' = isDir i.
Proof.
  unfold Chmod. destruct (String.eqb name ""); [done|].
  destruct (stat fs (resolve name)); [|done]. intros [= <-].
  split; [apply names_update|]. intros q j. by apply stat_update.
Qed.

Lemma MkdirAll_None path perm fs fs' :
  MkdirAll path perm fs = (None, fs') ->
  (forall q, names fs' !! q = names fs !! q \/
             (q `prefix_of` resolve path /\ q <> [])) /\
  exists i, stat fs' (resolve path) = Some i /\ isDir i = true.
Proof.
  unfold MkdirAll. destruct (String.eqb path ""); [done|].
  intros Hm. apply mkdirs_spec in Hm as [Hn Hd]. split.
  - intros q. destruct (Hn q) as [?|(_ & ? & ?)]; [by left | by right].
  - by apply (Hd rootInode).
Qed.
End MemfsFacts.

Section MachineFacts.
Import docker memfs.
Context (sha : list byte -> list byte) (untar : Response -> Layer).

Lemma fs_machine c (s : state machine) :
  @fs machine (machineEnv sha untar) c s =
  ((exec c (disk (world s))).1,
   {| world := {| disk := (exec c (disk (world s))).2;
                  network := network (world s) |};
      trace := trace s ++ [Fs c] |}).
Proof. unfold fs. cbn. by destruct (exec c (disk (world s))). Qed.

Lemma lookup_unlinked (p q : list string) (m : gmap (list string) nat) :
  filter (fun kv => ¬ (p `prefix_of` kv.1)) m !! q
  = if bool_decide (p `prefix_of` q) then None else m !! q.
Proof.
  case_bool_decide as Hp.
  - apply map_lookup_filter_None. right. intros x _ Hn. by apply Hn.
  - apply option_eq. intros x. rewrite map_lookup_filter_Some.
    split; [by intros [? _] | by intros ?].
Qed.

Lemma Clean_nonempty path : filepath.Clean path <> "".
Proof.
  unfold filepath.Clean. destruct (String.eqb path ""); [done|].
  destruct (filepath.rooted path); [done|].
  by destruct (String.eqb_spec (filepath.join
    (filepath.cleanElems false [] (filepath.split path))) "").
Qed.

(** The loop of the opaque marker unlinks everything at or below the
    joined path of each entry that is not in [added], and nothing else. *)
Lemma removeOthers_sweeps dir files added : forall (s s' : state machine),
  dir <> "" ->
  @removeOthers machine (machineEnv sha untar) dir files added s = (None, s') ->
  forall q, names (disk (world s')) !! q
            = if swept dir files added q then None
              else names (disk (world s)) !! q.
Proof.
  induction files as [|f rest IH]; intros s s' Hdir; cbn [removeOthers swept existsb].
  - by intros [= <-].
  - case_bool_decide as Hin; cbn [negb andb orb].
    + intros Hrun q. by apply (IH s s').
    + unfold orReturn, bind. rewrite fs_machine. cbn [exec fst snd].
      destruct (RemoveAll (filepath.Join [dir; f]) (disk (world s)))
        as [[err|] d1] eqn:Hrm; cbn [fst snd]; [done|].
      intros Hrun q. rewrite (IH _ _ Hdir Hrun q). cbn [world disk].
      apply RemoveAll_None in Hrm as [[Hempty _]|(_ & _ & ->)].
      { exfalso. cbn [filepath.Join] in Hempty.
        destruct (String.eqb_spec dir ""); [done|]. by apply Clean_nonempty in Hempty. }
      cbn [names]. rewrite lookup_unlinked.
      fold (swept dir rest added q).
      by destruct (bool_decide _), (swept dir rest added q).
Qed.

(** What an opaque marker does: after the [RemoveAll] of the marker's own
    name, the entries of its directory are read and swept; the two sets are
    left as they were. *)
Lemma applyEntry_opaque e h del added del' added' (s s' : state machine) :
  let dir := filepath.Dir (Name h) in
  let d1 := (RemoveAll (Name h) (disk (world s))).2 in
  header e = Some h ->
  String.eqb (filepath.Base (Name h)) ".wh..wh..plnk" = false ->
  String.eqb (filepath.Base (Name h)) ".wh..wh..opq" = true ->
  @applyEntry machine (machineEnv sha untar) e del added s = (Next del' added', s') ->
  del' = del /\ added' = added /\
  exists files,
    ReadDir dir d1 = inr files /\
    forall q, names (disk (world s')) !! q
              = if swept dir files added q then None else names d1 !! q.
Proof.
  intros dir d1 Hh H1 H2. subst d1. unfold applyEntry. rewrite Hh.
  unfold bind at 1. rewrite fs_machine. cbn [exec fst snd].
  destruct (RemoveAll (Name h) (disk (world s))) as [[err|] d1] eqn:Hrm; cbn [fst snd].
  { by rewrite (RemoveAll_never_NotExist _ _ _ _ Hrm). }
  unfold applyHeader. cbv zeta. rewrite H1, H2. fold dir.
  unfold bind, docker.ReadDir. cbn [env_ReadDir machineEnv world disk].
  destruct (ReadDir dir d1) as [err|files] eqn:Hrd; [done|].
  match goal with |- context [removeOthers dir files added ?st] =>
    destruct (removeOthers dir files added st) as [[err|] s2] eqn:Hro; [done|] end.
  intros [= <- <- <-]. split; [done|]. split; [done|]. exists files. split; [done|].
  intros q. rewrite (removeOthers_sweeps _ _ _ _ _ (Clean_nonempty _) Hro q). done.
Qed.

(** On this file system [os.RemoveAll] never fails with an error that
    satisfies [os.IsNotExist], so no entry ever adds a name to the set of
    pending deletions. *)
Lemma applyEntry_never_records e del added del' added' (s s' : state machine) :
  @applyEntry machine (machineEnv sha untar) e del added s = (Next del' added', s') ->
  del' ⊆ del.
Proof.
  unfold applyEntry. destruct (header e) as [h|]; [|by intros [= <- _ _]].
  unfold bind at 1. rewrite fs_machine. cbn [exec fst snd].
  destruct (RemoveAll (Name h) (disk (world s))) as [[err|] d1] eqn:Hrm; cbn [fst snd].
  { by rewrite (RemoveAll_never_NotExist _ _ _ _ Hrm). }
  unfold applyHeader. cbv zeta.
  destruct (String.eqb (filepath.Base (Name h)) ".wh..wh..plnk");
    [by intros [= <- _ _]|].
  destruct (String.eqb (filepath.Base (Name h)) ".wh..wh..opq").
  { unfold bind. destruct (docker.ReadDir _ _) as [[err|files] s2]; [done|].
    destruct (removeOthers _ _ _ s2) as [[err|] s3]; [done|]. by intros [= <- _ _]. }
  destruct (filepath.HasPrefix (filepath.Base (Name h)) ".wh.").
  { unfold bind. rewrite fs_machine. cbn [exec fst snd world disk].
    destruct (RemoveAll _ d1) as [[err|] d2] eqn:Hrm2; cbn [fst snd].
    - by rewrite (RemoveAll_never_NotExist _ _ _ _ Hrm2).
    - by intros [= <- _ _]. }
  destruct (bool_decide (Name h ∈ del)).
  { intros [= <- _ _] x Hx. by apply elem_of_difference in Hx as [? _]. }
  unfold bind. destruct (create _ _ _ _) as [[err|] s2]; [done|].
  intros Hf. by apply finish_Next in Hf as (_ & -> & _).
Qed.

Lemma applyEntries_never_records es fin : forall del added del' added' (s s' : state machine),
  @applyEntries machine (machineEnv sha untar) es fin del added s = (Next del' added', s') ->
  del' ⊆ del.
Proof.
  induction es as [|e es IH]; intros del added del' added' s s'; cbn [applyEntries].
  - destruct fin; [done|]. by intros [= <- _ _].
  - unfold bind. destruct (applyEntry e del added s) as [[err|del1 added1] s1] eqn:He; [done|].
    intros Hes. apply IH in Hes. apply applyEntry_never_records in He. set_solver.
Qed.

(** C10: for an entry the applier creates and whose processing
    succeeds, the first call is [RemoveAll] of the entry's name, after
    which nothing exists at or below the entry's path. For a directory
    entry the path is a directory afterwards and nothing exists below it:
    whatever earlier layers had put there is gone. *)
Theorem applyEntry_removes_then_creates e h del added (s : state machine) :
  let run := @applyEntry machine (machineEnv sha untar) e del added s in
  let p := resolve (Name h) in
  header e = Some h ->
  isMarker (Name h) = false ->
  Name h ∉ del ->
  finished run.1 = true ->
  (exists rest, trace run.2 = trace s ++ Fs (os_RemoveAll (Name h)) :: rest) /\
  (Name h <> "" ->
   forall q, p `prefix_of` q ->
             names (RemoveAll (Name h) (disk (world s))).2 !! q = None) /\
  (Typeflag h = TypeDir ->
   (exists i, stat (disk (world run.2)) p = Some i /\ isDir i = true) /\
   (forall q, p `prefix_of` q -> q <> p -> names (disk (world run.2)) !! q = None)).
Proof.
  intros run p Hh Hm Hd Hfin. subst run.
  destruct (applyEntry e del added s) as [[err|del' added'] s3] eqn:Hrun;
    cbn [fst snd] in *; [done|]. clear Hfin.
  unfold applyEntry in Hrun. rewrite Hh in Hrun.
  unfold bind at 1 in Hrun. rewrite fs_machine in Hrun. cbn [exec fst snd] in Hrun.
  destruct (RemoveAll (Name h) (disk (world s))) as [[err|] d1] eqn:Hrm;
    cbn [fst snd] in *.
  { by rewrite (RemoveAll_never_NotExist _ _ _ _ Hrm) in Hrun. }
  rewrite (applyHeader_creates _ _ _ _ Hm Hd) in Hrun. unfold bind in Hrun.
  set (s1 := {| world := {| disk := d1; network := network (world s) |};
                trace := trace s ++ [Fs (os_RemoveAll (Name h))] |}) in *.
  destruct (create_no_metadata (H:=machineEnv sha untar) h e (FileInfoMode h) s1)
    as (pre & Hpre & _).
  destruct (create h e (FileInfoMode h) s1) as [[err|] s2] eqn:Hc;
    cbn [fst snd] in *; [done|].
  pose proof (finish_Next _ _ _ _ _ _ _ _ Hrun) as (Ht3 & _ & _).
  assert (Hgone : Name h <> "" -> forall q, p `prefix_of` q -> names d1 !! q = None).
  { intros Hne q Hq. apply RemoveAll_None in Hrm as [[? _]|(_ & _ & ->)]; [done|].
    cbn. apply map_lookup_filter_None. right. intros x _ Hn. by apply Hn. }
  split; [|split; [exact Hgone|]].
  { eexists. rewrite Ht3, Hpre. unfold s1. cbn [trace].
    rewrite <- !app_assoc. reflexivity. }
  intros Hty. unfold create in Hc. rewrite Hty in Hc. cbn [Z.eqb Pos.eqb TypeDir] in Hc.
  rewrite fs_machine in Hc. unfold s1 in Hc.
  cbn [exec fst snd world disk] in Hc.
  destruct (MkdirAll (Name h) (FileInfoMode h) d1) as [r d2] eqn:Hmk.
  cbn [fst snd] in Hc. injection Hc as -> <-.
  unfold finish, bind in Hrun. rewrite fs_machine in Hrun.
  cbn [exec fst snd world disk] in Hrun.
  destruct (Lchown (Name h) (Uid h) (Gid h) d2) as [[err|] d3] eqn:Hch;
    cbn [fst snd] in Hrun; [done|].
  rewrite Hty in Hrun. cbn [Z.eqb Pos.eqb TypeDir TypeSymlink negb] in Hrun.
  rewrite fs_machine in Hrun. cbn [exec fst snd world disk] in Hrun.
  destruct (Chmod (Name h) (FileInfoMode h) d3) as [[err|] d4] eqn:Hcm;
    cbn [fst snd] in Hrun; [done|].
  injection Hrun as _ _ <-. cbn [world disk].
  assert (Hne : Name h <> "").
  { intros Heq. unfold MkdirAll in Hmk. by rewrite Heq in Hmk. }
  apply MkdirAll_None in Hmk as (Hn2 & i2 & Hi2 & Hd2).
  apply Lchown_None in Hch as (Hn3 & Hs3).
  apply Chmod_None in Hcm as (Hn4 & Hs4).
  split.
  - destruct (Hs3 _ _ Hi2) as (i3 & Hi3 & Hd3).
    destruct (Hs4 _ _ Hi3) as (i4 & Hi4 & Hd4).
    exists i4. split; [done|]. congruence.
  - intros q Hq Hqp. rewrite Hn4, Hn3.
    destruct (Hn2 q) as [->|[Hqp' _]]; [by apply Hgone|].
    destruct Hqp. apply prefix_length_eq; [done|]. by apply prefix_length.
Qed.
End MachineFacts.


Section ApplierWitnesses.
Import docker memfs fixtures.

Lemma applyEntry_chown_then_chmod_witness :
  header su = Some suHeader /\
  isMarker (Name suHeader) = false /\
  (Name suHeader ∉ (∅ : gset string)) /\
  finished (@applyEntry machine toy su ∅ ∅ (after [directory "bin"])).1 = true /\
  exists pre,
    trace (@applyEntry machine toy su ∅ ∅ (after [directory "bin"])).2
    = trace (after [directory "bin"]) ++ pre ++
      Fs (os_Lchown (Name suHeader) (Uid suHeader) (Gid suHeader))
      :: (if Typeflag suHeader =? TypeSymlink then []
          else [Fs (os_Chmod (Name suHeader) (FileInfoMode suHeader))]) /\
    Forall (fun ev => touchesMetadata ev = false) pre /\
    syscallMode (FileInfoMode suHeader) = Z.land (Mode suHeader) 4095.
Proof.
  split; [reflexivity|]. split; [reflexivity|]. split; [set_solver|].
  split; [vm_compute; reflexivity|].
  apply (@applyEntry_chown_then_chmod machine toy su suHeader ∅ ∅
           (after [directory "bin"])).
  - reflexivity.
  - reflexivity.
  - set_solver.
  - vm_compute; reflexivity.
Defined.


(** A corrupted blob followed by the right one: the layer is downloaded
    and applied twice, with one sleep in between, and the second attempt
    succeeds. *)
Example retry_after_digest_mismatch :
  let r := @Do machine unit 10 10 (@incrementOp machine toy "t" "alpine" wanted)
             (boot [inr corrupt; ok [x02]]) in
  r.1 = (tt, None) /\
  trace r.2 =
    [Http (blobRequest "t" "alpine" wanted);
     Fs (os_RemoveAll "blob"); Fs (os_OpenFile "blob" 65 420);
     Fs (io_Copy "blob" [x01]); Fs (file_Close "blob");
     Fs (os_Lchown "blob" 0 0); Fs (os_Chmod "blob" 420);
     Sleep 10;
     Http (blobRequest "t" "alpine" wanted);
     Fs (os_RemoveAll "blob"); Fs (os_OpenFile "blob" 65 420);
     Fs (io_Copy "blob" [x02]); Fs (file_Close "blob");
     Fs (os_Lchown "blob" 0 0); Fs (os_Chmod "blob" 420)] /\
  (ikind <$> stat (disk (world r.2)) ["blob"]) = Some (KFile [x02]).
Proof. vm_compute. repeat split. Qed.

Lemma applyEntry_removes_then_creates_witness :
  let run := @applyEntry machine (machineEnv (fun bs => bs) untarOne)
               (directory "etc") ∅ ∅ lower in
  let p := resolve (Name etcHeader) in
  header (directory "etc") = Some etcHeader /\
  isMarker (Name etcHeader) = false /\
  (Name etcHeader ∉ (∅ : gset string)) /\
  finished run.1 = true /\
  (exists rest, trace run.2 = trace lower ++ Fs (os_RemoveAll (Name etcHeader)) :: rest) /\
  (Name etcHeader <> "" ->
   forall q, p `prefix_of` q ->
             names (RemoveAll (Name etcHeader) (disk (world lower))).2 !! q = None) /\
  (Typeflag etcHeader = TypeDir ->
   (exists i, stat (disk (world run.2)) p = Some i /\ isDir i = true) /\
   (forall q, p `prefix_of` q -> q <> p -> names (disk (world run.2)) !! q = None)).
Proof.
  cbn zeta.
  split; [reflexivity|]. split; [reflexivity|]. split; [set_solver|].
  split; [vm_compute; reflexivity|].
  apply (@applyEntry_removes_then_creates (fun bs => bs) untarOne
           (directory "etc") etcHeader ∅ ∅ lower).
  - reflexivity.
  - reflexivity.
  - set_solver.
  - vm_compute; reflexivity.
Defined.

(** The file of the lower layer is there before the directory entry of
    the upper layer is applied and gone after it. *)
Example directory_entry_empties_directory :
  is_Some (names (disk (world lower)) !! ["etc"; "hosts"]) /\
  let upper := (@applyEntry machine toy (directory "etc") ∅ ∅ lower).2 in
  names (disk (world upper)) !! ["etc"; "hosts"] = None /\
  children (disk (world upper)) ["etc"] = [].
Proof. vm_compute. split; [by eexists | split; reflexivity]. Qed.

(** C2: evaluation at a layer made of the whiteout [.wh.foo] followed by
    the regular file [foo], applied where [foo] does not exist.
    [os.RemoveAll] of the missing target returns nil, so the target is
    not recorded as pending deletion, and the later entry [foo] is
    created with its contents instead of being skipped. *)
Theorem whiteout_of_missing_target_not_recorded :
  let whiteout := regular ".wh.foo" [] in
  let first := @applyEntry machine toy whiteout ∅ ∅ (boot []) in
  let both := @applyEntries machine toy [whiteout; regular "foo" [x01]] None ∅ ∅ (boot []) in
  stat (disk (world (boot []))) ["foo"] = None /\
  first.1 = Next ∅ ∅ /\
  trace first.2 = [Fs (os_RemoveAll ".wh.foo"); Fs (os_RemoveAll "foo")] /\
  both.1 = Next ∅ {["foo"]} /\
  (ikind <$> stat (disk (world both.2)) ["foo"]) = Some (KFile [x01]).
Proof. vm_compute. repeat split. Qed.

(** C5: evaluation at a layer made of the directories [a/] and [a/b/]
    followed by the opaque marker [a/.wh..wh..opq], applied to the empty
    disk. The set of added names holds [a/] and [a/b/] as the headers
    spell them; the marker looks up [a/b], does not find it, and removes
    the directory the same layer has just created. *)
Theorem opaque_marker_removes_directory_of_same_layer :
  let layer := [directory "a/"; directory "a/b/"; regular "a/.wh..wh..opq" []] in
  let before := @applyEntries machine toy [directory "a/"; directory "a/b/"] None ∅ ∅ (boot []) in
  let run := @applyEntries machine toy layer None ∅ ∅ (boot []) in
  before.1 = Next ∅ {["a/"; "a/b/"]} /\
  children (disk (world before.2)) ["a"] = ["b"] /\
  run.1 = Next ∅ {["a/"; "a/b/"]} /\
  children (disk (world run.2)) ["a"] = [] /\
  drop 8 (trace run.2) =
    [Fs (os_RemoveAll "a/.wh..wh..opq"); Fs (os_ReadDir "a"); Fs (os_RemoveAll "a/b")].
Proof. vm_compute. repeat split. Qed.

(** A directory entry creates its missing parents, which the opaque
    marker then removes although the layer made them. *)
Example opaque_marker_removes_implicit_parent :
  let layer := [directory "a"; directory "a/b/c"; regular "a/.wh..wh..opq" []] in
  let run := @applyEntries machine toy layer None ∅ ∅ (boot []) in
  run.1 = Next ∅ {["a"; "a/b/c"]} /\
  children (disk (world run.2)) ["a"] = [].
Proof. vm_compute. repeat split. Qed.

(** Scenario 7 of the specification: the setuid bit of mode 04755
    survives, because the mode is set after the owner. *)
Example setuid_survives :
  (imode <$> stat (disk (world
     (@applyEntries machine toy [directory "bin"; su] None ∅ ∅ (boot [])).2))
     ["bin"; "su"]) = Some 2541.
Proof. vm_compute. reflexivity. Qed.
End ApplierWitnesses.

(** ** Further properties of the executor *)

Section ChrootFacts.
Import executor transcript.
Context {W : Type} `{Env W}.

Lemma sysIn_app a b : sysIn (a ++ b) = sysIn a ++ sysIn b.
Proof. unfold sysIn. by rewrite omap_app. Qed.

Lemma sysIn_none new : Forall (fun e => ~ isSys e) new -> sysIn new = [].
Proof.
  induction 1 as [|e new He _ IH]; [done|].
  unfold sysIn in *. cbn. rewrite IH. destruct e; cbn in *; tauto.
Qed.

Lemma sysIn_map cs : sysIn (map Sys cs) = cs.
Proof. induction cs as [|c cs IH]; [done|]. unfold sysIn in *. cbn. by rewrite IH. Qed.

(** X1: in chroot mode the mounts of the configuration play no part. The
    only system calls of [Run] are [chroot.Enter(".")], made right after
    the HTTP client is created, and, when entering succeeded, the exit
    closure, made last, once the dispatch loop has returned and whatever
    it returned; [Run] returns what the loop returned. When entering
    fails, [Run] returns that error as it is and nothing else happens. *)
Theorem Run_chroot_enters_and_exits mounts rest fin (s : state W) :
  let r := Run (WConfig {| Chroot := true; Mounts := mounts |} :: rest) fin s in
  let entered := {| world := (env_sys (chroot_Enter ".") (world s)).2;
                    trace := trace s ++ [NewHTTPClient; Sys (chroot_Enter ".")] |} in
  match (env_sys (chroot_Enter ".") (world s)).1 with
  | Some e => r = (Some e, entered)
  | None =>
      r.1 = (loop rest fin entered).1 /\
      trace r.2 = trace (loop rest fin entered).2 ++ [Sys chroot_exit] /\
      exists new, trace r.2 = trace s ++ new /\
                  sysIn new = [chroot_Enter "."; chroot_exit]
  end.
Proof.
  cbn zeta. cbn [Run Chroot]. unfold orReturn, bind, record, sys. cbn [world trace].
  destruct (env_sys (chroot_Enter ".") (world s)) as [[e|] w1] eqn:Henter; cbn [fst snd].
  - unfold ret. by rewrite <- app_assoc.
  - rewrite <- app_assoc. cbn [app].
    set (s1 := {| world := w1; trace := trace s ++ [NewHTTPClient; Sys (chroot_Enter ".")] |}).
    destruct (loop_no_sys rest fin s1) as (mid & Hmid & Hno).
    destruct (loop rest fin s1) as [res s2]; cbn [fst snd] in *.
    destruct (env_sys chroot_exit (world s2)) as [x w3]; cbn [fst snd trace].
    split; [done|]. split; [done|].
    exists ([NewHTTPClient; Sys (chroot_Enter ".")] ++ mid ++ [Sys chroot_exit]).
    split.
    + rewrite Hmid. unfold s1. cbn [trace]. by rewrite <- !app_assoc.
    + rewrite !sysIn_app, (sysIn_none _ Hno). done.
Qed.
End ChrootFacts.

Section DispatchInvariant.
Import executor transcript.
Context {W : Type} `{Env W}.

Lemma handledIn_app a b : handledIn (a ++ b) = handledIn a ++ handledIn b.
Proof. unfold handledIn. by rewrite omap_app. Qed.

Lemma resultsIn_app a b : resultsIn (a ++ b) = resultsIn a ++ resultsIn b.
Proof. unfold resultsIn. by rewrite omap_app. Qed.

Lemma Send_outcome m (s : state W) :
  trace (Send m s).2
  = trace s ++ [match (Send m s).1 with
                | None => Sent m
                | Some _ => SendFailed m
                end].
Proof. unfold Send. by destruct (env_Send m (world s)) as [[e|] w]. Qed.

Lemma handler_not_request m : isRequest m = false -> handler (W:=W) m = None.
Proof. by destruct m. Qed.

(** What one turn of the loop adds to the trace: the handler's [Log]
    frames, the handler's outcome, and the [Result] frame, sent or
    not. *)
Lemma loop_turn msg handle (s : state W) :
  handler msg = Some handle ->
  exists logs err s3,
    Forall isLogEvent logs /\
    ((exists x,
        (forall rest fin,
           loop (msg :: rest) fin s
           = (Some (Wrap "command status reporting failed" x), s3)) /\
        (exists w, (env_Send (WResult (errString err)) w).1 = Some x) /\
        trace s3 = trace s ++ logs
                   ++ [Handled msg err; SendFailed (WResult (errString err))]) \/
     ((forall rest fin, loop (msg :: rest) fin s = loop rest fin s3) /\
      trace s3 = trace s ++ logs
                 ++ [Handled msg err; Sent (WResult (errString err))])).
Proof.
  intros Hh.
  destruct (handler_trace msg handle s Hh) as (logs & Ht1 & Hl1).
  destruct (handle s) as [err s1] eqn:Hrun; cbn [snd] in Ht1.
  set (s2 := {| world := world s1; trace := trace s1 ++ [Handled msg err] |}).
  pose proof (Send_outcome (WResult (errString err)) s2) as Ht2.
  assert (Hw : (env_Send (WResult (errString err)) (world s1)).1
               = (Send (WResult (errString err)) s2).1).
  { unfold Send. cbn [world s2]. by destruct (env_Send _ _). }
  destruct (Send (WResult (errString err)) s2) as [r s3] eqn:Hsend.
  cbn [fst snd trace s2] in Ht2, Hw. unfold s2 in Ht2. cbn [trace] in Ht2.
  rewrite Ht1, <- !app_assoc in Ht2. cbn [app] in Ht2.
  exists logs, err, s3. split; [done|].
  destruct r as [x|]; [left; exists x; split; [|split; [by eexists|exact Ht2]]
                      | right; split; [|exact Ht2]];
    intros rest fin; rewrite (loop_cons _ _ _ _ _ Hh), Hrun; cbv zeta;
    fold s2; by rewrite Hsend.
Qed.

(** X2: whatever the frames received, the handlers, the outcome of
    sending and the state of the context: the requests handled are, in
    order, the first frames received; a [Result] is sent only for a
    request that has been handled and carries that request's error text
    (the empty string for a success), in the order of the requests; at
    most one handled request is left without its [Result], the last one;
    and the loop returns no error only when every frame received has been
    handled and answered. *)
Theorem loop_answers_follow_requests inbox fin (s : state W) :
  exists new,
    trace (loop inbox fin s).2 = trace s ++ new /\
    map fst (handledIn new) `prefix_of` inbox /\
    resultsIn new `prefix_of` map (fun h => errString h.2) (handledIn new) /\
    (List.length (handledIn new) <= Datatypes.S (List.length (resultsIn new)))%nat /\
    ((loop inbox fin s).1 = None ->
     map fst (handledIn new) = inbox /\
     resultsIn new = map (fun h => errString h.2) (handledIn new)).
Proof.
  revert s. induction inbox as [|msg rest IH]; intros s.
  - exists []. rewrite app_nil_r. split.
    { rewrite loop_nil. pose proof (ctxErr_trace s) as H1.
      destruct (ctxErr s) as [c s1]; cbn [snd] in *.
      destruct (_ || _); cbn [snd]; [|done]. by rewrite ctxErr_trace. }
    cbn. split; [done|]. split; [done|]. split; [lia|done].
  - destruct (handler msg) as [handle|] eqn:Hh.
    + destruct (loop_turn msg handle s Hh)
        as (logs & err & s3 & Hl & [(x & Hrun & _ & Ht)|[Hrun Ht]]);
        rewrite (Hrun rest fin).
      * exists (logs ++ [Handled msg err; SendFailed (WResult (errString err))]).
        cbn [fst snd]. split; [done|].
        rewrite handledIn_app, resultsIn_app,
          (logs_handledIn _ Hl), (logs_resultsIn _ Hl). cbn.
        split; [by apply prefix_cons, prefix_nil|].
        split; [by apply prefix_nil|]. split; [lia|done].
      * destruct (IH s3) as (n3 & Ht3 & Hp3 & Hr3 & Hlen3 & Hok3).
        exists ((logs ++ [Handled msg err; Sent (WResult (errString err))]) ++ n3).
        split; [by rewrite Ht3, Ht, <- !app_assoc|].
        rewrite !handledIn_app, !resultsIn_app,
          (logs_handledIn _ Hl), (logs_resultsIn _ Hl). cbn.
        split; [by apply prefix_cons|]. split; [by apply prefix_cons|].
        split; [lia|]. intros Hnone. destruct (Hok3 Hnone) as [-> ->]. done.
    + exists []. cbn [loop]. rewrite Hh. cbn. rewrite app_nil_r.
      split; [done|]. split; [by apply prefix_nil|]. split; [done|].
      split; [lia|done].
Qed.

(** X3: a frame that is not a request (a second [Config], a [Result], a
    [Log]) ends the loop with an error. The frame is not handled and no
    [Result] is sent for it, nothing that was to be received after it
    plays any part, and the loop never returns nil; when the frames before
    it are requests and their [Result] frames go out, the error is
    "unexpected message: " followed by the type of the frame. *)
Theorem loop_stops_at_unexpected_frame pre m post fin (s : state W) :
  isRequest m = false ->
  (forall post' fin',
     loop (pre ++ m :: post) fin s = loop (pre ++ m :: post') fin' s) /\
  (loop (pre ++ m :: post) fin s).1 <> None /\
  (exists new,
     trace (loop (pre ++ m :: post) fin s).2 = trace s ++ new /\
     map fst (handledIn new) `prefix_of` pre /\
     (List.length (resultsIn new) <= List.length pre)%nat) /\
  ((forall e w, (env_Send (WResult e) w).1 = None) ->
   forallb isRequest pre = true ->
   (loop (pre ++ m :: post) fin s).1
   = Some (ErrNew ("unexpected message: " +:+ typeName m))).
Proof.
  intros Hm. apply (handler_not_request) in Hm.
  revert s. induction pre as [|msg rest IH]; intros s.
  - cbn [app loop]. rewrite Hm. cbn. split; [done|]. split; [done|].
    split; [|done]. exists []. rewrite app_nil_r. cbn. split; [done|].
    split; [done|lia].
  - cbn [app]. destruct (handler msg) as [handle|] eqn:Hh.
    + destruct (loop_turn msg handle s Hh)
        as (logs & err & s3 & Hl & [(x & Hrun & (w & Hw) & Ht)|[Hrun Ht]]).
      * rewrite (Hrun _ fin). cbn [fst snd].
        split; [intros post' fin'; by rewrite (Hrun _ fin')|]. split; [done|].
        split.
        { eexists. split; [exact Ht|].
          rewrite handledIn_app, resultsIn_app,
            (logs_handledIn _ Hl), (logs_resultsIn _ Hl). cbn.
          split; [by apply prefix_cons, prefix_nil|lia]. }
        intros Hsend _. by rewrite Hsend in Hw.
      * rewrite (Hrun _ fin).
        destruct (IH s3) as (Hind & Hne & (n3 & Ht3 & Hp3 & Hlen3) & Hexact).
        split; [intros post' fin'; by rewrite (Hrun _ fin'), (Hind post' fin')|].
        split; [done|]. split.
        { exists ((logs ++ [Handled msg err; Sent (WResult (errString err))]) ++ n3).
          split; [by rewrite Ht3, Ht, <- !app_assoc|].
          rewrite !handledIn_app, !resultsIn_app,
            (logs_handledIn _ Hl), (logs_resultsIn _ Hl). cbn.
          split; [by apply prefix_cons|lia]. }
        intros Hsend Hreq. cbn [forallb] in Hreq.
        apply andb_prop in Hreq as [_ Hreq]. by apply Hexact.
    + cbn [loop]. rewrite Hh. cbn. split; [done|]. split; [done|].
      split; [|intros _ Hreq; by destruct msg].
      exists []. rewrite app_nil_r. cbn. split; [done|].
      split; [apply prefix_nil|lia].
Qed.

(** X4: how the loop ends when receiving fails after requests whose
    [Result] frames went out. When the context is cancelled by then, the
    loop returns the context's error whatever made receiving fail; when it
    is not and receiving failed with something other than [io.EOF], the
    loop returns that error wrapped as "receiving message failed". *)
Theorem loop_end_of_input inbox fin (s : state W) :
  (forall e w, (env_Send (WResult e) w).1 = None) ->
  forallb isRequest inbox = true ->
  (forall c, (forall w, (env_ctxErr w).1 = Some c) ->
             (loop inbox fin s).1 = Some c) /\
  ((forall w, (env_ctxErr w).1 = None) -> isEOF fin = false ->
   (loop inbox fin s).1 = Some (Wrap "receiving message failed" fin)).
Proof.
  intros Hsend Hreq. revert s. induction inbox as [|msg rest IH]; intros s.
  - rewrite loop_nil. split.
    + intros c Hc. unfold ctxErr. pose proof (Hc (world s)) as H1.
      destruct (env_ctxErr (world s)) as [r1 w1]; cbn in H1. subst r1.
      rewrite bool_decide_eq_true_2 by done. cbn [orb world].
      specialize (Hc w1). by destruct (env_ctxErr w1) as [r2 w2].
    + intros Hctx Hfin. destruct (ctxErr_quiet s Hctx) as (w1 & ->).
      rewrite Hfin, bool_decide_eq_false_2 by (by intros []). done.
  - cbn [forallb] in Hreq. apply andb_prop in Hreq as [Hm Hrest].
    destruct (handler msg) as [handle|] eqn:Hh; [|by destruct msg].
    destruct (loop_turn msg handle s Hh)
      as (logs & err & s3 & _ & [(x & _ & (w & Hw) & _)|[Hrun _]]).
    { by rewrite Hsend in Hw. }
    rewrite (Hrun rest fin). by apply IH.
Qed.
End DispatchInvariant.

Section ExecuteFacts.
Import executor transcript.
Context {W : Type} `{Env W}.

Lemma logsOn_app st a b : logsOn st (a ++ b) = logsOn st a ++ logsOn st b.
Proof. unfold logsOn. by rewrite flat_map_app. Qed.

Lemma sameStream_refl st : sameStream st st = true.
Proof. by destruct st. Qed.

Section WorkingSends.
Hypothesis Hlog : forall st txt w, (env_Send (WLog st txt) w).1 = None.

Lemma Write_delivers lt data (s : state W) :
  exists lt' n s' new sent,
    Write lt data s = ((lt', (n, None)), s') /\
    trace s' = trace s ++ new /\
    stream lt' = stream lt /\
    (forall st, logsOn st new = if sameStream st (stream lt) then sent else []) /\
    sent ++ buf lt' = buf lt ++ data.
Proof.
  destruct (Nat.lt_ge_cases (List.length (buf lt) + List.length data) 100) as [Hb|Hb].
  - rewrite (Write_below _ _ _ Hb). do 3 eexists. exists [], [].
    split; [done|]. rewrite app_nil_r. split; [done|]. split; [done|].
    split; [|done]. intros st. by destruct (sameStream _ _).
  - pose proof (Hlog (stream lt) (string_of_list_byte (buf lt ++ data)) (world s)) as Hok.
    destruct (env_Send _ (world s)) as [r w] eqn:Hs. cbn in Hok. subst r.
    rewrite (Write_reach _ _ _ _ _ Hb Hs). do 4 eexists. exists (buf lt ++ data).
    split; [done|]. cbn [trace stream buf]. split; [done|]. split; [done|].
    split; [|by rewrite app_nil_r].
    intros st. unfold logsOn. cbn.
    rewrite list_byte_of_string_of_list_byte, app_nil_r.
    by destruct (sameStream _ _).
Qed.

Lemma Flush_delivers lt (s : state W) :
  exists lt' s' new,
    Flush lt s = ((lt', None), s') /\
    trace s' = trace s ++ new /\
    (forall st, logsOn st new = if sameStream st (stream lt) then buf lt else []).
Proof.
  destruct (buf lt) as [|b bs] eqn:Hbuf.
  - rewrite (Flush_empty _ _ Hbuf). exists lt, s, []. rewrite app_nil_r.
    split; [done|]. split; [done|]. intros st. by destruct (sameStream _ _).
  - pose proof (Hlog (stream lt) (string_of_list_byte (buf lt)) (world s)) as Hok.
    destruct (env_Send _ (world s)) as [r w] eqn:Hs. cbn in Hok. subst r.
    rewrite (Flush_residual lt s None w); [|by rewrite Hbuf|done].
    do 3 eexists. split; [done|]. cbn [trace]. split; [done|].
    intros st. unfold logsOn. cbn.
    rewrite list_byte_of_string_of_list_byte, app_nil_r, Hbuf.
    by destruct (sameStream _ _).
Qed.

Lemma pump_delivers p : forall out err (s : state W),
  stream out = StreamOut -> stream err = StreamErr ->
  exists out' err' s' new,
    pump p out err s = ((exitError p, (out', err')), s') /\
    trace s' = trace s ++ new /\
    stream out' = StreamOut /\ stream err' = StreamErr /\
    logsOn StreamOut new ++ buf out' = buf out ++ written StreamOut p /\
    logsOn StreamErr new ++ buf err' = buf err ++ written StreamErr p.
Proof.
  induction p as [e|st data k IH]; intros out err s Hout Herr.
  - exists out, err, s, []. cbn. by rewrite !app_nil_r.
  - destruct st; cbn [pump written exitError sameStream]; unfold bind.
    + destruct (Write_delivers out data s)
        as (out1 & n & s1 & n1 & sent & -> & Ht1 & Hs1 & Hl1 & Hb1).
      rewrite Hout in Hs1, Hl1.
      destruct (IH None out1 err s1 Hs1 Herr)
        as (out' & err' & s' & n2 & -> & Ht2 & Ho & He & Hlo & Hle).
      exists out', err', s', (n1 ++ n2).
      split; [done|]. split; [by rewrite Ht2, Ht1, <- app_assoc|].
      split; [done|]. split; [done|]. rewrite !logsOn_app, !Hl1. cbn.
      split; [|done]. by rewrite <- !app_assoc, Hlo, !app_assoc, Hb1.
    + destruct (Write_delivers err data s)
        as (err1 & n & s1 & n1 & sent & -> & Ht1 & Hs1 & Hl1 & Hb1).
      rewrite Herr in Hs1, Hl1.
      destruct (IH None out err1 s1 Hout Hs1)
        as (out' & err' & s' & n2 & -> & Ht2 & Ho & He & Hlo & Hle).
      exists out', err', s', (n1 ++ n2).
      split; [done|]. split; [by rewrite Ht2, Ht1, <- app_assoc|].
      split; [done|]. split; [done|]. rewrite !logsOn_app, !Hl1. cbn.
      split; [done|]. by rewrite <- !app_assoc, Hle, !app_assoc, Hb1.
Qed.
End WorkingSends.

(** X5: when the [Log] frames go out, [execute] delivers the output of
    the command: the texts of the [Log] frames of standard output, put
    together in the order sent, are the bytes the command wrote to its
    standard output, none lost, repeated or reordered, the same holds for
    standard error, and [execute] returns the error the command exited
    with. Nothing stays in a buffer. *)
Theorem execute_delivers_output cmd (s : state W) :
  (forall st txt w, (env_Send (WLog st txt) w).1 = None) ->
  let p := env_Exec cmd (world s) in
  exists new,
    trace (execute cmd s).2 = trace s ++ new /\
    logsOn StreamOut new = written StreamOut p /\
    logsOn StreamErr new = written StreamErr p /\
    (execute cmd s).1 = exitError p.
Proof.
  intros Hlog p. unfold execute, bind, lift. cbn [fst snd].
  set (s0 := {| world := world s; trace := trace s |}).
  destruct (pump_delivers Hlog p {| stream := StreamOut; buf := [] |}
              {| stream := StreamErr; buf := [] |} s0 eq_refl eq_refl)
    as (out & err & s1 & n1 & Hrun & Ht1 & Ho & He & Hlo & Hle).
  fold p. rewrite Hrun.
  destruct (Flush_delivers Hlog out s1) as (out' & s2 & n2 & -> & Ht2 & Hl2).
  destruct (Flush_delivers Hlog err s2) as (err' & s3 & n3 & -> & Ht3 & Hl3).
  cbn [fst snd ret]. exists (n1 ++ n2 ++ n3).
  split; [by rewrite Ht3, Ht2, Ht1, <- !app_assoc|].
  rewrite !logsOn_app, !Hl2, !Hl3, Ho, He. cbn [sameStream buf app] in *.
  rewrite app_nil_r. done.
Qed.

Lemma text_nonempty (bs : list byte) : bs <> [] -> string_of_list_byte bs <> "".
Proof. by destruct bs. Qed.

Lemma Write_carries lt data (s : state W) :
  exists new, trace (Write lt data s).2 = trace s ++ new /\ Forall carriesText new.
Proof.
  destruct (Nat.lt_ge_cases (List.length (buf lt) + List.length data) 100) as [Hb|Hb].
  - rewrite (Write_below _ _ _ Hb). exists []. by rewrite app_nil_r.
  - destruct (env_Send (WLog (stream lt) (string_of_list_byte (buf lt ++ data)))
                (world s)) as [r w] eqn:Hs.
    rewrite (Write_reach _ _ _ _ _ Hb Hs).
    assert (Hne : string_of_list_byte (buf lt ++ data) <> "").
    { apply text_nonempty. intros Hnil. rewrite <- length_app, Hnil in Hb. cbn in Hb. lia. }
    destruct r; cbn [snd trace]; eexists; (split; [done|]); by repeat constructor.
Qed.

Lemma Flush_carries lt (s : state W) :
  exists new, trace (Flush lt s).2 = trace s ++ new /\ Forall carriesText new.
Proof.
  destruct (buf lt) as [|b bs] eqn:Hbuf.
  - rewrite (Flush_empty _ _ Hbuf). exists []. by rewrite app_nil_r.
  - destruct (env_Send (WLog (stream lt) (string_of_list_byte (buf lt)))
                (world s)) as [r w] eqn:Hs.
    rewrite (Flush_residual lt s r w); [|by rewrite Hbuf|done].
    assert (Hne : string_of_list_byte (buf lt) <> "").
    { apply text_nonempty. by rewrite Hbuf. }
    destruct r; cbn [snd trace]; eexists; (split; [done|]); by repeat constructor.
Qed.

Lemma pump_carries p : forall out err (s : state W),
  exists new, trace (pump p out err s).2 = trace s ++ new /\ Forall carriesText new.
Proof.
  induction p as [e|st data k IH]; intros out err s.
  - exists []. cbn. by rewrite app_nil_r.
  - destruct st; cbn [pump]; unfold bind.
    + destruct (Write_carries out data s) as (n1 & Ht1 & Hl1).
      destruct (Write out data s) as [[out' [n werr]] s1]; cbn [snd] in *.
      destruct (IH werr out' err s1) as (n2 & Ht2 & Hl2).
      exists (n1 ++ n2). rewrite Ht2, Ht1, <- app_assoc.
      split; [done | by apply Forall_app].
    + destruct (Write_carries err data s) as (n1 & Ht1 & Hl1).
      destruct (Write err data s) as [[err' [n werr]] s1]; cbn [snd] in *.
      destruct (IH werr out err' s1) as (n2 & Ht2 & Hl2).
      exists (n1 ++ n2). rewrite Ht2, Ht1, <- app_assoc.
      split; [done | by apply Forall_app].
Qed.

(** X6: whatever the command does and whether sending works or not, all
    that [execute] adds to the trace are [Log] frames handed to
    [client.Send], and none of them has an empty text: the transmitter
    sends only once it holds at least one byte. *)
Theorem execute_sends_no_empty_frame cmd (s : state W) :
  exists new,
    trace (execute cmd s).2 = trace s ++ new /\ Forall carriesText new.
Proof.
  unfold execute, bind, lift. cbn [fst snd].
  set (s0 := {| world := world s; trace := trace s |}).
  destruct (pump_carries (env_Exec cmd (world s))
              {| stream := StreamOut; buf := [] |}
              {| stream := StreamErr; buf := [] |} s0) as (n1 & Ht1 & Hl1).
  destruct (pump _ _ _ s0) as [[e [out err]] s1]; cbn [snd] in *.
  destruct (Flush_carries out s1) as (n2 & Ht2 & Hl2).
  destruct (Flush out s1) as [r2 s2]; cbn [snd] in *.
  destruct (Flush_carries err s2) as (n3 & Ht3 & Hl3).
  destruct (Flush err s2) as [r3 s3]; cbn [snd] in *.
  exists (n1 ++ n2 ++ n3). cbn [ret snd]. rewrite Ht3, Ht2, Ht1, <- !app_assoc.
  split; [done|]. by repeat apply Forall_app_2.
Qed.
End ExecuteFacts.

Section SandboxFacts.
Import executor transcript.
Context {W : Type} `{Env W}.

Section ExistingDirectories.
Hypothesis Htol : forall c w,
  match (env_sys c w).1 with
  | None => True
  | Some e => tolerated c = true /\ IsExist e = true
  end.

Lemma sys_strict c (s : state W) : tolerated c = false -> (sys c s).1 = None.
Proof.
  intros Hc. unfold sys. specialize (Htol c (world s)).
  destruct (env_sys c (world s)) as [[e|] w]; cbn in *; [|done].
  destruct Htol as [Ht _]. congruence.
Qed.

Lemma check_succeeds c wrap k :
  (forall s : state W, (c s).1 = None) ->
  (forall s : state W, (k s).1 = None) ->
  forall s : state W, (orReturn c wrap k s).1 = None.
Proof.
  intros Hc Hk s. unfold orReturn, bind. specialize (Hc s).
  destruct (c s) as [[e|] s1]; cbn in *; [done|apply Hk].
Qed.

Lemma tolerate_succeeds c k :
  (forall s : state W, (k s).1 = None) ->
  forall s : state W, (orReturnUnlessExist (sys c) k s).1 = None.
Proof.
  intros Hk s. unfold orReturnUnlessExist, bind, sys. specialize (Htol c (world s)).
  destruct (env_sys c (world s)) as [[e|] w]; cbn in *; [|apply Hk].
  destruct Htol as [_ ->]. apply Hk.
Qed.

Lemma bindDevices_succeeds devs : forall s : state W,
  (bindDevices "dev" devs s).1 = None.
Proof.
  induction devs as [|dev rest IH]; [done|]. cbn [bindDevices].
  repeat (apply check_succeeds; [intros s; by apply sys_strict|]). exact IH.
Qed.

Lemma makeLinks_succeeds ls : forall s : state W, (makeLinks "dev" ls s).1 = None.
Proof.
  induction ls as [|[newName oldName] rest IH]; [done|]. cbn [makeLinks].
  apply check_succeeds; [intros s; by apply sys_strict|]. exact IH.
Qed.

Lemma applyMounts_succeeds mounts : forall s : state W,
  (applyMounts mounts s).1 = None.
Proof.
  induction mounts as [|m rest IH]; [done|]. cbn [applyMounts].
  apply tolerate_succeeds. apply check_succeeds; [intros s; by apply sys_strict|].
  destruct (Writable m); [exact IH|].
  apply check_succeeds; [intros s; by apply sys_strict|]. exact IH.
Qed.

Lemma buildSandbox_succeeds config : forall s : state W,
  (buildSandbox config s).1 = None.
Proof.
  unfold buildSandbox.
  apply check_succeeds.
  { unfold prepareNewRoot.
    apply check_succeeds; [intros s; by apply sys_strict|].
    apply tolerate_succeeds.
    apply check_succeeds; [intros s; by apply sys_strict|].
    intros s; by apply sys_strict. }
  apply check_succeeds.
  { unfold mountProc. apply tolerate_succeeds.
    by apply check_succeeds; [intros s; by apply sys_strict|]. }
  apply check_succeeds.
  { unfold mountTmp. apply tolerate_succeeds.
    by apply check_succeeds; [intros s; by apply sys_strict|]. }
  apply check_succeeds.
  { unfold populateDev. cbv zeta. apply tolerate_succeeds.
    apply check_succeeds; [intros s; by apply sys_strict|].
    apply check_succeeds; [apply bindDevices_succeeds|]. apply makeLinks_succeeds. }
  apply check_succeeds; [apply applyMounts_succeeds|].
  apply check_succeeds.
  { unfold pivotRoot.
    repeat (apply check_succeeds; [intros s; by apply sys_strict|]).
    intros s; by apply sys_strict. }
  apply check_succeeds; [|done].
  unfold configureDNS. apply tolerate_succeeds. intros s; by apply sys_strict.
Qed.
End ExistingDirectories.

(** X7: the sandbox can be built where its directories exist already.
    When the only calls that fail are [os.Mkdir] of [root], [proc], [tmp],
    [dev] or [etc] and [os.MkdirAll] of a mount point, and each such
    failure satisfies [os.IsExist], building the sandbox succeeds and
    every call of the sequence is made, the failed ones included. The
    [os.Mkdir] of [.old] is not among the tolerated calls. *)
Theorem buildSandbox_tolerates_existing_directories config (s : state W) :
  (forall c w,
     match (env_sys c w).1 with
     | None => True
     | Some e => tolerated c = true /\ IsExist e = true
     end) ->
  (buildSandbox config s).1 = None /\
  trace (buildSandbox config s).2
  = trace s ++ map Sys (sandboxCalls env_mapOrder config).
Proof.
  intros Htol. pose proof (buildSandbox_succeeds Htol config s) as Hok.
  split; [done|].
  destruct (buildSandbox_obeys config s) as (cs & Ht & _ & Hall).
  by rewrite Ht, (Hall Hok).
Qed.

Lemma readOnlyMounts_app a b :
  readOnlyMounts (a ++ b) = readOnlyMounts a ++ readOnlyMounts b.
Proof. unfold readOnlyMounts. by rewrite omap_app. Qed.

Lemma readOnlyMounts_mountCalls mounts :
  readOnlyMounts (flat_map mountCalls mounts)
  = map (fun m => (Host m, filepath.Join ["."; Container m]))
        (List.filter (fun m => negb (Writable m)) mounts).
Proof.
  induction mounts as [|m rest IH]; [done|].
  cbn [flat_map List.filter]. rewrite readOnlyMounts_app, IH.
  unfold mountCalls. by destruct (Writable m).
Qed.

(** X8: the mounts that [applyMounts] makes with [MS_RDONLY] are those
    of the mounts not marked writable, in the order of the configuration,
    each with the host path as source and the joined container path as
    target: as far as the function got when it fails, and all of them when
    it succeeds. A mount marked writable is never given [MS_RDONLY]. *)
Theorem applyMounts_remounts_readonly mounts (s : state W) :
  let expected :=
    map (fun m => (Host m, filepath.Join ["."; Container m]))
        (List.filter (fun m => negb (Writable m)) mounts) in
  exists cs,
    trace (applyMounts mounts s).2 = trace s ++ map Sys cs /\
    readOnlyMounts cs `prefix_of` expected /\
    ((applyMounts mounts s).1 = None -> readOnlyMounts cs = expected).
Proof.
  cbv zeta. destruct (applyMounts_obeys mounts s) as (cs & Ht & [k Hk] & Hall).
  exists cs. split; [done|]. rewrite <- readOnlyMounts_mountCalls. split.
  - exists (readOnlyMounts k). by rewrite Hk, readOnlyMounts_app.
  - intros Hok. by rewrite (Hall Hok).
Qed.

(** X9: whatever order the runtime picks for the range over the map of
    links, [populateDev] makes the directory, mounts the tmpfs, binds the
    five devices in their fixed order and then creates each of the four
    symbolic links exactly once: the calls made are a prefix of that
    sequence, and the whole of it when [populateDev] succeeds. *)
Theorem populateDev_links_each_once (s : state W) :
  exists cs ls,
    trace (populateDev s).2 = trace s ++ map Sys cs /\
    ls ≡ₚ links /\
    cs `prefix_of`
      [os_Mkdir "dev" 493; syscall_Mount "none" "dev" "tmpfs" 0 ""]
      ++ flat_map deviceCalls devices ++ map linkCall ls /\
    ((populateDev s).1 = None ->
     cs = [os_Mkdir "dev" 493; syscall_Mount "none" "dev" "tmpfs" 0 ""]
          ++ flat_map deviceCalls devices ++ map linkCall ls).
Proof.
  destruct (populateDev_obeys s) as (cs & Ht & Hp & Hall).
  exists cs, (rangeOrder env_mapOrder links).
  split; [done|]. split; [apply rangeOrder_Permutation|]. done.
Qed.
End SandboxFacts.

Section ExecutorExtraWitnesses.
Import executor transcript.

Lemma loop_stops_at_unexpected_frame_witness :
  isRequest (WLog StreamOut "hi") = false /\
  (@loop unit quiet [WCopy "/a" "/b"; WLog StreamOut "hi"; WExecute "ls"] EOF boot).1
  = Some (ErrNew "unexpected message: wire.Log").
Proof.
  split; [reflexivity|].
  refine (proj2 (proj2 (proj2
    (@loop_stops_at_unexpected_frame unit quiet [WCopy "/a" "/b"]
       (WLog StreamOut "hi") [WExecute "ls"] EOF boot eq_refl))) _ _).
  - intros e w. reflexivity.
  - reflexivity.
Defined.

Lemma loop_end_of_input_witness :
  (forall c, (forall w, (@env_ctxErr unit cancelled w).1 = Some c) ->
             (@loop unit cancelled [WCopy "/a" "/b"; WExecute "ls"] (Errno EIO) boot).1
             = Some c) /\
  ((forall w, (@env_ctxErr unit cancelled w).1 = None) -> isEOF (Errno EIO) = false ->
   (@loop unit cancelled [WCopy "/a" "/b"; WExecute "ls"] (Errno EIO) boot).1
   = Some (Wrap "receiving message failed" (Errno EIO))).
Proof.
  apply (@loop_end_of_input unit cancelled [WCopy "/a" "/b"; WExecute "ls"]
           (Errno EIO) boot).
  - intros e w. reflexivity.
  - reflexivity.
Defined.

(** A read error on standard input after the context was cancelled
    surfaces as the cancellation. *)
Example loop_cancelled_returns_context_error :
  (@loop unit cancelled [WCopy "/a" "/b"; WExecute "ls"] (Errno EIO) boot).1
  = Some Canceled.
Proof. reflexivity. Qed.

Lemma execute_delivers_output_witness :
  (forall st txt w, (@env_Send unit talkative (WLog st txt) w).1 = None) /\
  exists new,
    trace (@execute unit talkative "make" boot).2 = trace boot ++ new /\
    logsOn StreamOut new = [x6f; x6b; x21] /\
    logsOn StreamErr new = [x6e; x6f] /\
    (@execute unit talkative "make" boot).1 = Some (ErrNew "exit status 2").
Proof.
  split; [intros st txt w; reflexivity|].
  apply (@execute_delivers_output unit talkative "make" boot).
  intros st txt w. reflexivity.
Defined.

Lemma buildSandbox_tolerates_existing_directories_witness :
  (@buildSandbox unit revisited sampleConfig boot).1 = None /\
  trace (@buildSandbox unit revisited sampleConfig boot).2
  = trace boot ++ map Sys (sandboxCalls 0 sampleConfig).
Proof.
  apply (@buildSandbox_tolerates_existing_directories unit revisited sampleConfig boot).
  intros c w. cbn. destruct (tolerated c); [split; reflexivity|exact I].
Defined.

(** Where no directory can be made, building the sandbox stops at the
    first one. *)
Example buildSandbox_read_only_host :
  @buildSandbox unit readOnlyHost sampleConfig boot
  = (Some (Wrap "preparing new root filesystem failed" (Errno EROFS)),
     {| world := tt;
        trace := [Sys (syscall_Mount "" "/" "" 540672 ""); Sys (os_Mkdir "root" 493)] |}).
Proof. reflexivity. Qed.
End ExecutorExtraWitnesses.

(** ** Further properties of the applier *)

Section RegistryFacts.
Import docker ledger.
Context {S : Type} `{Env S}.

Lemma httpDo_trace r (s : state S) : trace (httpDo r s).2 = trace s ++ [Http r].
Proof. unfold httpDo. by destruct (env_http r (world s)). Qed.

(** X10: [authorize] sends one request, for the pull scope of the image,
    and touches nothing else. It returns either a token that is not empty
    and no error, or the empty token and an error marked retryable: no
    failure of it is final, and a response without a token counts as a
    failure. *)
Theorem authorize_outcomes imageName (s : state S) :
  let r := authorize imageName s in
  trace r.2 = trace s ++ [Http (tokenRequest imageName)] /\
  match r.1.2 with
  | None => r.1.1 <> ""
  | Some e => r.1.1 = "" /\ exists cause, e = Retryable cause
  end.
Proof.
  cbv zeta. unfold authorize, bind. fold (tokenRequest imageName).
  pose proof (httpDo_trace (tokenRequest imageName) s) as Ht.
  destruct (httpDo (tokenRequest imageName) s) as [[err|resp] s1]; cbn [snd] in Ht.
  { cbn. split; [done|]. split; [done|]. by eexists. }
  destruct (StatusCode resp =? 200); cbn [negb].
  2:{ cbn. split; [done|]. split; [done|]. by eexists. }
  destruct (readErr resp) as [err|].
  { cbn. split; [done|]. split; [done|]. by eexists. }
  destruct (env_jsonToken (raw resp)) as [err|[Token AccessToken]].
  { cbn. split; [done|]. split; [done|]. by eexists. }
  destruct (String.eqb_spec Token ""); cbn [negb].
  2:{ cbn. done. }
  destruct (String.eqb_spec AccessToken ""); cbn [negb].
  2:{ cbn. done. }
  cbn. split; [done|]. split; [done|]. by eexists.
Qed.

(** X11: [layers] sends one request, for the manifest of the tag, with
    the [Accept] header of the version 2 manifest and the bearer token, and
    touches nothing else. Every failure of it is marked retryable and
    comes with no layer. *)
Theorem layers_outcomes token image tag (s : state S) :
  let r := layers token image tag s in
  trace r.2 = trace s ++ [Http (manifestRequest token image tag)] /\
  match r.1.2 with
  | None => True
  | Some e => r.1.1 = [] /\ exists cause, e = Retryable cause
  end.
Proof.
  cbv zeta. unfold layers, bind. fold (manifestRequest token image tag).
  pose proof (httpDo_trace (manifestRequest token image tag) s) as Ht.
  destruct (httpDo (manifestRequest token image tag) s) as [[err|resp] s1];
    cbn [snd] in Ht.
  { cbn. split; [done|]. split; [done|]. by eexists. }
  destruct (StatusCode resp =? 200); cbn [negb].
  2:{ cbn. split; [done|]. split; [done|]. by eexists. }
  destruct (readErr resp) as [err|].
  { cbn. split; [done|]. split; [done|]. by eexists. }
  destruct (env_jsonLayers (raw resp)) as [err|digests].
  { cbn. split; [done|]. split; [done|]. by eexists. }
  cbn. done.
Qed.

Lemma fsIn_app a b : fsIn (a ++ b) = fsIn a ++ fsIn b.
Proof. unfold fsIn. by rewrite omap_app. Qed.

Lemma authorize_requests imageName (s : state S) :
  trace (authorize imageName s).2 = trace s ++ [Http (tokenRequest imageName)].
Proof.
  unfold authorize, bind. fold (tokenRequest imageName).
  pose proof (httpDo_trace (tokenRequest imageName) s) as Ht.
  destruct (httpDo (tokenRequest imageName) s) as [[err|resp] s1]; cbn [snd] in Ht;
    [done|].
  destruct (negb _); [done|]. destruct (readErr resp); [done|].
  destruct (env_jsonToken _) as [err|[Token AccessToken]]; [done|].
  destruct (negb _); [done|]. by destruct (negb _).
Qed.

Lemma layers_requests token image tag (s : state S) :
  trace (layers token image tag s).2
  = trace s ++ [Http (manifestRequest token image tag)].
Proof.
  unfold layers, bind. fold (manifestRequest token image tag).
  pose proof (httpDo_trace (manifestRequest token image tag) s) as Ht.
  destruct (httpDo (manifestRequest token image tag) s) as [[err|resp] s1];
    cbn [snd] in Ht; [done|].
  destruct (negb _); [done|]. destruct (readErr resp); [done|].
  by destruct (env_jsonLayers _).
Qed.

(** Retrying an operation that makes no file-system call makes none. *)
Lemma retryLoop_no_fs {A} (op : @M (state S) (A * option error)) delay :
  (forall s, exists new, trace (op s).2 = trace s ++ new /\ fsIn new = []) ->
  forall more s,
    exists new, trace (retryLoop more delay op s).2 = trace s ++ new /\ fsIn new = [].
Proof.
  intros Hop more. induction more as [|more IH]; intros s; cbn [retryLoop]; unfold bind.
  - destruct (Hop s) as (new & Ht & Hf). destruct (op s) as [[a err] s1]; cbn [snd] in *.
    exists new. by destruct err as [[]|].
  - destruct (Hop s) as (n1 & Ht1 & Hf1). destruct (op s) as [[a err] s1]; cbn [snd] in *.
    destruct err as [e|]; [|by exists n1].
    destruct e; try by exists n1.
    unfold sleep. cbn [snd].
    match goal with |- context [retryLoop more delay op ?st] =>
      destruct (IH st) as (n2 & Ht2 & Hf2) end.
    cbn [trace] in Ht2. exists (n1 ++ [Sleep delay] ++ n2).
    rewrite Ht2, Ht1, <- !app_assoc. split; [done|].
    by rewrite !fsIn_app, Hf1, Hf2.
Qed.

(** X12: [Apply] touches the file system only once it holds a token
    and the manifest. With [retry.Do] as the specification describes it,
    neither obtaining the token nor obtaining the manifest makes a
    file-system call; when the first fails for good, [Apply] returns its
    error without asking for the manifest; when the second fails for good,
    [Apply] returns its error; and when the manifest lists no layer,
    [Apply] returns nil, the disk untouched. *)
Theorem Apply_touches_disk_after_manifest image tag (s : state S) :
  let a := Do 10 5 (authorize image) s in
  let m := Do 10 5 (layers a.1.1 image tag) a.2 in
  (exists pre1 pre2,
     trace a.2 = trace s ++ pre1 /\ trace m.2 = trace a.2 ++ pre2 /\
     fsIn pre1 = [] /\ fsIn pre2 = []) /\
  (a.1.2 <> None -> Apply image tag s = (a.1.2, a.2)) /\
  (a.1.2 = None -> m.1.2 <> None -> Apply image tag s = (m.1.2, m.2)) /\
  (a.1.2 = None -> m.1.2 = None -> m.1.1 = [] -> Apply image tag s = (None, m.2)).
Proof.
  cbv zeta. split.
  { destruct (retryLoop_no_fs (authorize image) 5) with (more := 9%nat) (s := s)
      as (pre1 & Ht1 & Hf1).
    { intros s0. eexists. split; [apply authorize_requests|done]. }
    match goal with |- context [Do 10 5 (layers ?t image tag) ?st] =>
      destruct (retryLoop_no_fs (layers t image tag) 5) with (more := 9%nat) (s := st)
        as (pre2 & Ht2 & Hf2) end.
    { intros s0. eexists. split; [apply layers_requests|done]. }
    by exists pre1, pre2. }
  unfold Apply, bind.
  destruct (Do 10 5 (authorize image) s) as [[token [e|]] s1]; cbn [fst snd].
  { split; [done|]. split; [done|]. done. }
  split; [done|].
  destruct (Do 10 5 (layers token image tag) s1) as [[l [e|]] s2]; cbn [fst snd].
  { split; [done|]. done. }
  split; [done|]. by intros _ _ ->.
Qed.
End RegistryFacts.

Section LayerFacts.
Import docker ledger.
Context {S : Type} `{Env S}.

Lemma fs_calls c (s : state S) :
  exists cs, trace (fs c s).2 = trace s ++ map Fs cs.
Proof. exists [c]. apply fs_trace. Qed.

Lemma removeOthers_calls dir files added : forall s : state S,
  exists cs, trace (removeOthers dir files added s).2 = trace s ++ map Fs cs /\
             Forall (fun c => isRemoval c = true) cs.
Proof.
  induction files as [|f rest IH]; intros s; cbn [removeOthers].
  - exists []. cbn. by rewrite app_nil_r.
  - case_bool_decide; [apply IH|]. unfold orReturn, bind.
    pose proof (fs_trace (os_RemoveAll (filepath.Join [dir; f])) s) as H1.
    destruct (fs _ s) as [[err|] s1]; cbn [snd] in *.
    + eexists [_]. split; [exact H1|]. by repeat constructor.
    + destruct (IH s1) as (cs & Ht & Hr). eexists (_ :: cs).
      rewrite Ht, H1, <- app_assoc. split; [done|]. by constructor.
Qed.

Lemma create_calls h e mode (s : state S) :
  exists cs, trace (create h e mode s).2 = trace s ++ map Fs cs.
Proof.
  unfold create.
  destruct (Typeflag h =? TypeDir); [|destruct (Typeflag h =? TypeReg);
    [|destruct (Typeflag h =? TypeSymlink); [|destruct (Typeflag h =? TypeLink)]]].
  - apply fs_calls.
  - unfold orReturn, bind.
    pose proof (fs_trace (os_OpenFile (Name h) (Z.lor O_CREATE O_WRONLY) mode) s) as H1.
    destruct (fs _ s) as [[err|] s1]; cbn [snd] in *.
    + by eexists [_].
    + pose proof (fs_trace (io_Copy (Name h) (content e)) s1) as H2.
      destruct (fs _ s1) as [werr s2]; cbn [snd] in *.
      pose proof (fs_trace (file_Close (Name h)) s2) as H3.
      destruct (fs _ s2) as [cerr s3]; cbn [snd] in *.
      eexists [_; _; _]. cbn [ret snd]. by rewrite H3, H2, H1, <- !app_assoc.
  - apply fs_calls.
  - unfold bind.
    pose proof (fs_trace (os_OpenFile (Linkname h) (Z.lor O_CREATE O_EXCL) mode) s) as H1.
    destruct (fs _ s) as [[err|] s1]; cbn [snd] in *.
    + destruct (IsExist err); cbn [negb].
      * eexists [_; _]. by rewrite fs_trace, H1, <- !app_assoc.
      * by eexists [_].
    + unfold bind.
      pose proof (fs_trace (file_Close (Linkname h)) s1) as H2.
      destruct (fs _ s1) as [cerr s2]; cbn [snd] in *.
      eexists [_; _; _]. by rewrite fs_trace, H2, H1, <- !app_assoc.
  - exists []. cbn. by rewrite app_nil_r.
Qed.

Lemma finish_calls h mode del added (s : state S) :
  exists cs, trace (finish h mode del added s).2 = trace s ++ map Fs cs.
Proof.
  unfold finish, bind.
  pose proof (fs_trace (os_Lchown (Name h) (Uid h) (Gid h)) s) as H1.
  destruct (fs _ s) as [[err|] s1]; cbn [snd] in *; [by eexists [_]|].
  destruct (Typeflag h =? TypeSymlink); cbn [negb]; [by eexists [_]|].
  pose proof (fs_trace (os_Chmod (Name h) mode) s1) as H2.
  destruct (fs _ s1) as [[err|] s2]; cbn [snd] in *;
    eexists [_; _]; cbn [ret snd]; by rewrite H2, H1, <- !app_assoc.
Qed.

(** What the three marker cases of the switch do. *)
Lemma applyHeader_marker h e del added (s : state S) :
  isMarker (Name h) = true ->
  exists cs,
    trace (applyHeader h e del added s).2 = trace s ++ map Fs cs /\
    Forall (fun c => isRemoval c = true) cs /\
    forall del' added', (applyHeader h e del added s).1 = Next del' added' ->
                        added' ⊆ added.
Proof.
  unfold isMarker, applyHeader. cbv zeta. intros Hm.
  destruct (String.eqb (filepath.Base (Name h)) ".wh..wh..plnk").
  { exists []. cbn. rewrite app_nil_r. split; [done|]. split; [done|].
    by intros ? ? [= _ <-]. }
  destruct (String.eqb (filepath.Base (Name h)) ".wh..wh..opq").
  { unfold bind, ReadDir.
    destruct (env_ReadDir _ _) as [err|files]; cbn [ret fst snd].
    - eexists [_]. split; [done|]. split; [by repeat constructor|done].
    - match goal with |- context [removeOthers ?d ?f ?a ?st] =>
        destruct (removeOthers_calls d f a st) as (cs & Ht & Hr);
        destruct (removeOthers d f a st) as [[err|] s2] end;
        cbn [ret fst snd trace] in *; eexists (_ :: cs);
        rewrite Ht, <- app_assoc; (split; [done|]);
        (split; [by constructor|]); [done|by intros ? ? [= _ <-]]. }
  cbn [orb] in Hm. rewrite Hm. unfold bind.
  match goal with |- context [fs ?c s] =>
    pose proof (fs_trace c s) as H1; destruct (fs c s) as [[err|] s1] end;
    cbn [snd] in *.
  - destruct (IsNotExist err); cbn [ret fst snd]; eexists [_];
      (split; [exact H1|]); (split; [by repeat constructor|]); [|done].
    intros ? ? [= _ <-] y Hy. by apply elem_of_difference in Hy as [? _].
  - eexists [_]. cbn [ret fst snd]. split; [exact H1|].
    split; [by repeat constructor|]. intros ? ? [= _ <-] y Hy. by apply elem_of_difference in Hy as [? _].
Qed.

Lemma applyHeader_calls h e del added (s : state S) :
  exists cs, trace (applyHeader h e del added s).2 = trace s ++ map Fs cs.
Proof.
  destruct (isMarker (Name h)) eqn:Hm.
  { destruct (applyHeader_marker h e del added s Hm) as (cs & Ht & _). by exists cs. }
  destruct (decide (Name h ∈ del)) as [Hd|Hd].
  { unfold isMarker in Hm. unfold applyHeader. cbv zeta.
    apply orb_false_elim in Hm as [Hm H3]. apply orb_false_elim in Hm as [H1 H2].
    rewrite H1, H2, H3, bool_decide_eq_true_2 by done.
    exists []. cbn. by rewrite app_nil_r. }
  rewrite (applyHeader_creates _ _ _ _ Hm Hd). unfold bind.
  destruct (create_calls h e (FileInfoMode h) s) as (c1 & Ht1).
  destruct (create h e (FileInfoMode h) s) as [[err|] s1]; cbn [snd] in *.
  - by exists c1.
  - destruct (finish_calls h (FileInfoMode h) del added s1) as (c2 & Ht2).
    exists (c1 ++ c2). by rewrite Ht2, Ht1, map_app, app_assoc.
Qed.

Lemma applyEntry_calls e del added (s : state S) :
  exists cs, trace (applyEntry e del added s).2 = trace s ++ map Fs cs.
Proof.
  unfold applyEntry. destruct (header e) as [h|].
  2:{ exists []. cbn. by rewrite app_nil_r. }
  unfold bind. pose proof (fs_trace (os_RemoveAll (Name h)) s) as H1.
  destruct (fs _ s) as [r s1]; cbn [snd] in *.
  destruct (applyHeader_calls h e del added s1) as (cs & Ht).
  destruct r as [err|]; [destruct (IsNotExist err); cbn [negb]|].
  - eexists (_ :: cs). by rewrite Ht, H1, <- app_assoc.
  - by eexists [_].
  - eexists (_ :: cs). by rewrite Ht, H1, <- app_assoc.
Qed.

Lemma applyEntries_calls es fin : forall del added (s : state S),
  exists cs, trace (applyEntries es fin del added s).2 = trace s ++ map Fs cs.
Proof.
  induction es as [|e rest IH]; intros del added s; cbn [applyEntries].
  - exists []. rewrite app_nil_r. by destruct fin.
  - unfold bind. destruct (applyEntry_calls e del added s) as (c1 & Ht1).
    destruct (applyEntry e del added s) as [[err|del1 added1] s1]; cbn [snd] in *.
    + by exists c1.
    + destruct (IH del1 added1 s1) as (c2 & Ht2).
      exists (c1 ++ c2). by rewrite Ht2, Ht1, map_app, app_assoc.
Qed.

(** X13: [increment] sends one request, for the blob, and after it makes
    file-system calls only: it never sends a second request and never
    waits. When the request fails, the status is not 200 or the body is
    not a gzip stream, no file-system call is made at all and the error is
    marked retryable. *)
Theorem increment_download_failure_touches_nothing token imageName digest
    (s : state S) :
  let r := increment token imageName digest s in
  exists cs,
    trace r.2 = trace s ++ Http (blobRequest token imageName digest) :: map Fs cs /\
    (unusable (env_http (blobRequest token imageName digest) (world s)).1 = true ->
     cs = [] /\ exists cause, r.1 = Some (Retryable cause)).
Proof.
  cbv zeta. unfold increment, bind. fold (blobRequest token imageName digest).
  unfold httpDo.
  destruct (env_http (blobRequest token imageName digest) (world s))
    as [[err|resp] w]; cbn [fst snd unusable].
  { exists []. split; [done|]. intros _. split; [done|]. by eexists. }
  destruct (StatusCode resp =? 200); cbn [negb orb].
  2:{ exists []. split; [done|]. intros _. split; [done|]. by eexists. }
  destruct (gzipErr (env_untar resp)) as [err|] eqn:Hgz.
  { exists []. split; [done|]. intros _. split; [done|]. by eexists. }
  match goal with |- context [applyEntries ?es ?fin ?d ?a ?st] =>
    destruct (applyEntries_calls es fin d a st) as (cs & Ht);
    destruct (applyEntries es fin d a st) as [[err|del' added'] s2] end;
    cbn [snd trace] in Ht.
  - exists cs. cbn [ret snd]. rewrite Ht, <- app_assoc. split; [done|].
    by rewrite bool_decide_eq_false_2 by (by intros []).
  - exists cs. destruct (negb _); cbn [ret snd]; rewrite Ht, <- app_assoc;
      (split; [done|]); by rewrite bool_decide_eq_false_2 by (by intros []).
Qed.


(** X15: an entry of a type flag the switch has no case for (a device,
    a FIFO) is rejected, but not before [os.RemoveAll] has been called on
    its name: the call on the name is the only one made, the entry always
    ends the layer with an error, and when the removal went through the
    error is "unsupported file type: " followed by the flag's number. *)
Theorem applyEntry_unsupported_type e h del added (s : state S) :
  header e = Some h ->
  isMarker (Name h) = false ->
  Name h ∉ del ->
  supported h = false ->
  let r := applyEntry e del added s in
  trace r.2 = trace s ++ [Fs (os_RemoveAll (Name h))] /\
  exists err, r.1 = Stop err /\
    ((env_fs (os_RemoveAll (Name h)) (world s)).1 = None ->
     err = ErrNew ("unsupported file type: " +:+ pretty (Typeflag h))).
Proof.
  intros Hh Hm Hd Hsup. cbv zeta. unfold applyEntry. rewrite Hh.
  rewrite (applyHeader_creates _ _ _ _ Hm Hd).
  unfold supported in Hsup.
  apply orb_false_elim in Hsup as [Hsup H4]. apply orb_false_elim in Hsup as [Hsup H3].
  apply orb_false_elim in Hsup as [H1 H2].
  unfold bind, create, fs. rewrite H1, H2, H3, H4.
  destruct (env_fs (os_RemoveAll (Name h)) (world s)) as [[err|] w]; cbn [fst snd].
  - destruct (IsNotExist err); cbn [negb ret fst snd trace]; (split; [done|]);
      eexists; (split; [done|]); done.
  - cbn [ret fst snd trace]. split; [done|]. eexists. split; [done|]. done.
Qed.

(** X16: a marker entry ([.wh..wh..plnk], [.wh..wh..opq], [.wh.name]) is
    never materialised. Whatever the file system answers, the calls made
    for it only remove or list ([os.RemoveAll], [os.ReadDir]): no file,
    directory or link is created and no owner or mode is set, and the set
    of added entries does not grow. *)
Theorem applyEntry_marker_creates_nothing e h del added (s : state S) :
  header e = Some h ->
  isMarker (Name h) = true ->
  let r := applyEntry e del added s in
  exists cs,
    trace r.2 = trace s ++ map Fs cs /\
    Forall (fun c => isRemoval c = true) cs /\
    forall del' added', r.1 = Next del' added' -> added' ⊆ added.
Proof.
  intros Hh Hm. cbv zeta. unfold applyEntry. rewrite Hh. unfold bind.
  pose proof (fs_trace (os_RemoveAll (Name h)) s) as H1.
  destruct (fs _ s) as [r s1]; cbn [snd] in *.
  destruct (applyHeader_marker h e del added s1 Hm) as (cs & Ht & Hr & Hsub).
  destruct r as [err|]; [destruct (IsNotExist err); cbn [negb]|].
  - eexists (_ :: cs). rewrite Ht, H1, <- app_assoc.
    split; [done|]. split; [by constructor|done].
  - eexists [_]. cbn [ret fst snd]. split; [done|]. split; [by repeat constructor|done].
  - eexists (_ :: cs). rewrite Ht, H1, <- app_assoc.
    split; [done|]. split; [by constructor|done].
Qed.
End LayerFacts.

(** ** What the applier leaves on disk *)

Section DiskFacts.
Import docker memfs ledger.
Context (sha : list byte -> list byte) (untar : Response -> Layer).

Lemma stat_update_same fs p f i :
  p <> [] -> stat fs p = Some i -> stat (update fs p f) p = Some (f i).
Proof.
  unfold stat, update. destruct p as [|c p]; [done|]. intros _.
  destruct (names fs !! (c :: p)) as [n|] eqn:Hn; cbn; [|done].
  intros Hi. rewrite Hn. cbn. rewrite lookup_alter, decide_True by done.
  by rewrite Hi.
Qed.

Lemma stat_unlinked fs p q :
  stat {| names := filter (fun kv => ¬ (p `prefix_of` kv.1)) (names fs);
          inodes := inodes fs |} q
  = if bool_decide (p `prefix_of` q) then
      match q with [] => Some rootInode | _ => None end
    else stat fs q.
Proof.
  unfold stat. destruct q as [|c q]; [by case_bool_decide|]. cbn [names inodes].
  rewrite lookup_unlinked. by case_bool_decide.
Qed.

(** A successful run of an entry the applier creates, step by step. *)
Lemma applyEntry_created e h del added del' added' (s s' : state machine) :
  header e = Some h ->
  isMarker (Name h) = false ->
  Name h ∉ del ->
  @applyEntry machine (machineEnv sha untar) e del added s = (Next del' added', s') ->
  exists d1 s2 d3,
    RemoveAll (Name h) (disk (world s)) = (None, d1) /\
    @create machine (machineEnv sha untar) h e (FileInfoMode h)
      {| world := {| disk := d1; network := network (world s) |};
         trace := trace s ++ [Fs (os_RemoveAll (Name h))] |} = (None, s2) /\
    Lchown (Name h) (Uid h) (Gid h) (disk (world s2)) = (None, d3) /\
    (if Typeflag h =? TypeSymlink then disk (world s') = d3
     else Chmod (Name h) (FileInfoMode h) d3 = (None, disk (world s'))) /\
    del' = del /\ added' = {[Name h]} ∪ added.
Proof.
  intros Hh Hm Hd Hrun. unfold applyEntry in Hrun. rewrite Hh in Hrun.
  unfold bind at 1 in Hrun. rewrite fs_machine in Hrun. cbn [exec fst snd] in Hrun.
  destruct (RemoveAll (Name h) (disk (world s))) as [[err|] d1] eqn:Hrm;
    cbn [fst snd] in Hrun.
  { by rewrite (RemoveAll_never_NotExist _ _ _ _ Hrm) in Hrun. }
  rewrite (applyHeader_creates _ _ _ _ Hm Hd) in Hrun. unfold bind in Hrun.
  destruct (create h e (FileInfoMode h) _) as [[err|] s2] eqn:Hc; [done|].
  exists d1, s2. unfold finish, bind in Hrun. rewrite fs_machine in Hrun.
  cbn [exec fst snd] in Hrun.
  destruct (Lchown (Name h) (Uid h) (Gid h) (disk (world s2))) as [[err|] d3] eqn:Hch;
    cbn [fst snd] in Hrun; [done|].
  exists d3. split; [done|]. split; [done|]. split; [done|].
  destruct (Typeflag h =? TypeSymlink); cbn [negb] in Hrun.
  - by injection Hrun as <- <- <-.
  - rewrite fs_machine in Hrun. cbn [exec fst snd world disk] in Hrun.
    destruct (Chmod (Name h) (FileInfoMode h) d3) as [[err|] d4] eqn:Hcm;
      cbn [fst snd] in Hrun; [done|].
    by injection Hrun as <- <- <-.
Qed.

(** Once [os.RemoveAll] has gone through for a name that is not empty,
    nothing is at the name. *)
Lemma RemoveAll_clears name fs d1 :
  name <> "" ->
  RemoveAll name fs = (None, d1) ->
  resolve name <> [] /\ stat d1 (resolve name) = None /\
  (forall q, ¬ (resolve name `prefix_of` q) -> stat d1 q = stat fs q) /\
  d1 = {| names := filter (fun kv => ¬ (resolve name `prefix_of` kv.1)) (names fs);
          inodes := inodes fs |}.
Proof.
  intros Hne Hrm. apply RemoveAll_None in Hrm as [[? _]|(_ & Hp & ->)]; [done|].
  split; [done|]. split; [|split; [|done]].
  - rewrite stat_unlinked, bool_decide_eq_true_2 by done.
    by destruct (resolve name).
  - intros q Hq. by rewrite stat_unlinked, bool_decide_eq_false_2.
Qed.

Lemma Lchown_sets name uid gid fs fs' i :
  resolve name <> [] ->
  stat fs (resolve name) = Some i ->
  Lchown name uid gid fs = (None, fs') ->
  stat fs' (resolve name)
  = Some {| ikind := ikind i; imode := killSuid i; iuid := uid; igid := gid |}.
Proof.
  intros Hp Hi. unfold Lchown. destruct (String.eqb name ""); [done|].
  rewrite Hi. intros [= <-]. by rewrite (stat_update_same _ _ _ i).
Qed.

Lemma Chmod_sets name mode fs fs' i :
  resolve name <> [] ->
  stat fs (resolve name) = Some i ->
  Chmod name mode fs = (None, fs') ->
  stat fs' (resolve name)
  = Some {| ikind := ikind i; imode := syscallMode mode;
            iuid := iuid i; igid := igid i |}.
Proof.
  intros Hp Hi. unfold Chmod. destruct (String.eqb name ""); [done|].
  rewrite Hi. intros [= <-]. by rewrite (stat_update_same _ _ _ i).
Qed.

(** X17: a regular file entry that is applied without error leaves at
    its name a regular file whose contents are exactly the bytes of the
    entry, whatever was at the name before, owned by the user and group of
    the header, with the permission, setuid, setgid and sticky bits of the
    header's mode. *)
Theorem applyEntry_regular_file e h del added (s : state machine) :
  let run := @applyEntry machine (machineEnv sha untar) e del added s in
  header e = Some h ->
  isMarker (Name h) = false ->
  Name h ∉ del ->
  Typeflag h = TypeReg ->
  finished run.1 = true ->
  stat (disk (world run.2)) (resolve (Name h))
  = Some {| ikind := KFile (content e); imode := Z.land (Mode h) 4095;
            iuid := Uid h; igid := Gid h |}.
Proof.
  intros run Hh Hm Hd Hty Hfin. subst run.
  destruct (applyEntry e del added s) as [[err|del' added'] s'] eqn:Hrun;
    cbn [fst snd] in *; [done|]. clear Hfin.
  apply (applyEntry_created _ _ _ _ _ _ _ _ Hh Hm Hd) in Hrun
    as (d1 & s2 & d3 & Hrm & Hc & Hch & Hcm & _ & _).
  rewrite Hty in Hcm. cbn [Z.eqb Pos.eqb TypeReg TypeSymlink] in Hcm.
  unfold create in Hc. rewrite Hty in Hc. cbn [Z.eqb Pos.eqb TypeReg TypeDir] in Hc.
  unfold orReturn, bind in Hc. rewrite fs_machine in Hc.
  cbn [exec fst snd world disk] in Hc.
  assert (Hne : Name h <> "").
  { intros Heq. unfold OpenFile in Hc. by rewrite Heq in Hc. }
  destruct (RemoveAll_clears _ _ _ Hne Hrm) as (Hp & Hgone & _ & _).
  unfold OpenFile in Hc. rewrite (proj2 (String.eqb_neq _ _) Hne) in Hc.
  cbv zeta in Hc. destruct (parentErr d1 (resolve (Name h))); [done|].
  rewrite Hgone in Hc.
  change (Z.testbit (Z.lor O_CREATE O_WRONLY) 6) with true in Hc. cbn [fst snd] in Hc.
  set (i0 := {| ikind := KFile []; imode := syscallMode (FileInfoMode h);
                iuid := 0; igid := 0 |}) in Hc.
  rewrite !fs_machine in Hc. cbn [exec fst snd world disk] in Hc.
  unfold Copy in Hc. rewrite (stat_alloc _ _ i0 Hp) in Hc. cbn [i0 fst snd] in Hc.
  destruct (contentErr e); [done|]. injection Hc as <-. cbn [world disk] in Hch.
  eapply Lchown_sets in Hch; [|done|by apply stat_update_same, stat_alloc].
  eapply Chmod_sets in Hcm; [|done|exact Hch].
  rewrite Hcm. cbn [ikind iuid igid imode]. rewrite syscallMode_FileInfoMode.
  by rewrite drop_nil, app_nil_r.
Qed.

(** X18: a symbolic link entry that is applied without error leaves at
    its name a symbolic link to the header's link name, owned by the user
    and group of the header. The mode of the header is not applied: the
    link keeps the mode links are created with. *)
Theorem applyEntry_symlink e h del added (s : state machine) :
  let run := @applyEntry machine (machineEnv sha untar) e del added s in
  header e = Some h ->
  isMarker (Name h) = false ->
  Name h ∉ del ->
  Typeflag h = TypeSymlink ->
  finished run.1 = true ->
  stat (disk (world run.2)) (resolve (Name h))
  = Some {| ikind := KSymlink (Linkname h); imode := 511;
            iuid := Uid h; igid := Gid h |}.
Proof.
  intros run Hh Hm Hd Hty Hfin. subst run.
  destruct (applyEntry e del added s) as [[err|del' added'] s'] eqn:Hrun;
    cbn [fst snd] in *; [done|]. clear Hfin.
  apply (applyEntry_created _ _ _ _ _ _ _ _ Hh Hm Hd) in Hrun
    as (d1 & s2 & d3 & Hrm & Hc & Hch & Hcm & _ & _).
  rewrite Hty in Hcm. cbn [Z.eqb Pos.eqb TypeSymlink] in Hcm. subst d3.
  unfold create in Hc. rewrite Hty in Hc.
  cbn [Z.eqb Pos.eqb TypeReg TypeDir TypeSymlink] in Hc.
  rewrite fs_machine in Hc. cbn [exec fst snd world disk] in Hc.
  assert (Hne : Name h <> "").
  { intros Heq. unfold Symlink in Hc. by rewrite Heq in Hc. }
  destruct (RemoveAll_clears _ _ _ Hne Hrm) as (Hp & Hgone & _ & _).
  unfold Symlink in Hc. rewrite (proj2 (String.eqb_neq _ _) Hne) in Hc.
  cbv zeta in Hc. destruct (parentErr d1 (resolve (Name h))); [done|].
  rewrite Hgone in Hc. injection Hc as <-. cbn [world disk] in Hch.
  eapply Lchown_sets in Hch; [|done|by apply stat_alloc].
  by rewrite Hch.
Qed.

(** X19: a directory entry that is applied without error leaves at its
    name a directory owned by the user and group of the header, with the
    permission, setuid, setgid and sticky bits of the header's mode. *)
Theorem applyEntry_directory e h del added (s : state machine) :
  let run := @applyEntry machine (machineEnv sha untar) e del added s in
  header e = Some h ->
  isMarker (Name h) = false ->
  Name h ∉ del ->
  Typeflag h = TypeDir ->
  finished run.1 = true ->
  stat (disk (world run.2)) (resolve (Name h))
  = Some {| ikind := KDir; imode := Z.land (Mode h) 4095;
            iuid := Uid h; igid := Gid h |}.
Proof.
  intros run Hh Hm Hd Hty Hfin. subst run.
  destruct (applyEntry e del added s) as [[err|del' added'] s'] eqn:Hrun;
    cbn [fst snd] in *; [done|]. clear Hfin.
  apply (applyEntry_created _ _ _ _ _ _ _ _ Hh Hm Hd) in Hrun
    as (d1 & s2 & d3 & Hrm & Hc & Hch & Hcm & _ & _).
  rewrite Hty in Hcm. cbn [Z.eqb Pos.eqb TypeDir TypeSymlink] in Hcm.
  unfold create in Hc. rewrite Hty in Hc. cbn [Z.eqb Pos.eqb TypeDir] in Hc.
  rewrite fs_machine in Hc. cbn [exec fst snd world disk] in Hc.
  destruct (MkdirAll (Name h) (FileInfoMode h) d1) as [r d2] eqn:Hmk.
  cbn [fst snd] in Hc. injection Hc as -> <-. cbn [world disk] in Hch.
  assert (Hne : Name h <> "").
  { intros Heq. unfold MkdirAll in Hmk. by rewrite Heq in Hmk. }
  destruct (RemoveAll_clears _ _ _ Hne Hrm) as (Hp & _ & _ & _).
  apply MkdirAll_None in Hmk as (_ & i & Hi & Hdir).
  eapply Lchown_sets in Hch; [|done|exact Hi].
  eapply Chmod_sets in Hcm; [|done|exact Hch].
  rewrite Hcm. cbn [ikind iuid igid imode]. rewrite syscallMode_FileInfoMode.
  unfold isDir in Hdir. by destruct (ikind i).
Qed.



Lemma Dir_nonempty path : filepath.Dir path <> "".
Proof. apply Clean_nonempty. Qed.

Lemma Join_dir_nonempty dir f : dir <> "" -> filepath.Join [dir; f] <> "".
Proof.
  intros Hdir. cbn [filepath.Join].
  destruct (String.eqb_spec dir ""); [done|]. apply Clean_nonempty.
Qed.

(** X21: on this file system a whiteout entry [.wh.name] that is applied
    without error removes what is at or below the target [name] in the
    marker's directory, and what is at or below the marker's own name,
    and changes nothing else; the target leaves the set of added entries,
    and the set of pending deletions stays as it was. *)
Theorem applyEntry_whiteout_on_disk e h del added (s : state machine) :
  let run := @applyEntry machine (machineEnv sha untar) e del added s in
  let base := filepath.Base (Name h) in
  let target :=
    filepath.Join [filepath.Dir (Name h); filepath.TrimPrefix base ".wh."] in
  header e = Some h ->
  String.eqb base ".wh..wh..plnk" = false ->
  String.eqb base ".wh..wh..opq" = false ->
  filepath.HasPrefix base ".wh." = true ->
  finished run.1 = true ->
  run.1 = Next del (added ∖ {[target]}) /\
  inodes (disk (world run.2)) = inodes (disk (world s)) /\
  forall q, names (disk (world run.2)) !! q
            = if bool_decide (resolve (Name h) `prefix_of` q)
                 || bool_decide (resolve target `prefix_of` q)
              then None
              else names (disk (world s)) !! q.
Proof.
  intros run base target Hh H1 H2 H3 Hfin. subst run.
  destruct (applyEntry e del added s) as [[err|del' added'] s'] eqn:Hrun;
    cbn [fst snd] in *; [done|]. clear Hfin.
  unfold applyEntry in Hrun. rewrite Hh in Hrun.
  unfold bind at 1 in Hrun. rewrite fs_machine in Hrun. cbn [exec fst snd] in Hrun.
  destruct (RemoveAll (Name h) (disk (world s))) as [[err|] d1] eqn:Hrm;
    cbn [fst snd] in Hrun.
  { by rewrite (RemoveAll_never_NotExist _ _ _ _ Hrm) in Hrun. }
  unfold applyHeader in Hrun. cbv zeta in Hrun. fold base in Hrun.
  rewrite H1, H2, H3 in Hrun. fold target in Hrun.
  unfold bind in Hrun. rewrite fs_machine in Hrun.
  cbn [exec fst snd world disk] in Hrun.
  destruct (RemoveAll target d1) as [[err|] d2] eqn:Hrm2; cbn [fst snd] in Hrun.
  { by rewrite (RemoveAll_never_NotExist _ _ _ _ Hrm2) in Hrun. }
  injection Hrun as <- <- <-. cbn [world disk]. split; [done|].
  assert (Hne : Name h <> "").
  { intros Heq. subst base. by rewrite Heq in H3. }
  apply (RemoveAll_clears _ _ _ Hne) in Hrm as (_ & _ & _ & ->).
  apply RemoveAll_clears in Hrm2 as (_ & _ & _ & ->);
    [|by apply Join_dir_nonempty, Dir_nonempty].
  cbn [names inodes]. split; [done|]. intros q. rewrite !lookup_unlinked.
  by destruct (bool_decide _), (bool_decide _).
Qed.

Lemma existsb_same {A} (f g : A -> bool) l :
  Forall (fun x => f x = g x) l -> existsb f l = existsb g l.
Proof. induction 1 as [|x l Hx _ IH]; [done|]. cbn. by rewrite Hx, IH. Qed.

Lemma blocked_unlinked fs p :
  blocked {| names := filter (fun kv => ¬ (p `prefix_of` kv.1)) (names fs);
             inodes := inodes fs |} p
  = blocked fs p.
Proof.
  unfold blocked. apply existsb_same. unfold ancestors.
  apply Forall_forall. intros q Hq. apply list_elem_of_fmap in Hq as (n & -> & Hn).
  apply elem_of_seq in Hn. rewrite stat_unlinked, bool_decide_eq_false_2; [done|].
  intros Hp. apply prefix_length in Hp. rewrite length_take in Hp. lia.
Qed.

(** X22: the applier makes no parent directory for a file or a symbolic
    link. Where the directory the entry's name lies in does not exist,
    the entry ends the layer with an error, and when [os.RemoveAll] of the
    name went through, the error is that of a missing file or directory
    and the disk is left as the removal left it. *)
Theorem applyEntry_needs_parent e h del added (s : state machine) :
  let run := @applyEntry machine (machineEnv sha untar) e del added s in
  header e = Some h ->
  isMarker (Name h) = false ->
  Name h ∉ del ->
  Typeflag h = TypeReg \/ Typeflag h = TypeSymlink ->
  stat (disk (world s)) (removelast (resolve (Name h))) = None ->
  exists err,
    run.1 = Stop err /\
    ((RemoveAll (Name h) (disk (world s))).1 = None ->
     err = Errno ENOENT /\
     disk (world run.2) = (RemoveAll (Name h) (disk (world s))).2).
Proof.
  intros run Hh Hm Hd Hty Hpar. subst run.
  destruct (applyEntry e del added s) as [r s'] eqn:Hrun. cbn [fst snd].
  unfold applyEntry in Hrun. rewrite Hh in Hrun. unfold bind at 1 in Hrun.
  rewrite fs_machine in Hrun. cbn [exec fst snd] in Hrun.
  destruct (RemoveAll (Name h) (disk (world s))) as [[err|] d1] eqn:Hrm;
    cbn [fst snd] in *.
  { rewrite (RemoveAll_never_NotExist _ _ _ _ Hrm) in Hrun. cbn in Hrun.
    injection Hrun as <- <-. by eexists. }
  assert (Hne : Name h <> "").
  { intros Heq. by rewrite Heq in Hpar. }
  assert (Hblocked : blocked (disk (world s)) (resolve (Name h)) = false).
  { unfold RemoveAll in Hrm. rewrite (proj2 (String.eqb_neq _ _) Hne) in Hrm.
    destruct (endsWithDot (Name h)); [done|].
    destruct (resolve (Name h)); [done|].
    by destruct (blocked (disk (world s)) _). }
  destruct (RemoveAll_clears _ _ _ Hne Hrm) as (Hp & Hgone & Hkeep & Hd1).
  assert (Hperr : parentErr d1 (resolve (Name h)) = Some (Errno ENOENT)).
  { unfold parentErr. rewrite Hd1, blocked_unlinked, Hblocked, <- Hd1, Hkeep, Hpar; [done|].
    intros Hpre. apply prefix_length in Hpre.
    rewrite removelast_firstn_len, length_take in Hpre.
    destruct (resolve (Name h)); [done|]. cbn in Hpre. lia. }
  rewrite (applyHeader_creates _ _ _ _ Hm Hd) in Hrun. unfold bind, create in Hrun.
  destruct Hty as [Hty|Hty]; rewrite Hty in Hrun;
    cbn [Z.eqb Pos.eqb TypeReg TypeDir TypeSymlink] in Hrun.
  - unfold orReturn, bind in Hrun. rewrite fs_machine in Hrun.
    cbn [exec fst snd world disk] in Hrun.
    unfold OpenFile in Hrun. rewrite (proj2 (String.eqb_neq _ _) Hne) in Hrun.
    cbv zeta in Hrun. rewrite Hperr in Hrun. cbn in Hrun.
    injection Hrun as <- <-. by eexists.
  - rewrite fs_machine in Hrun. cbn [exec fst snd world disk] in Hrun.
    unfold Symlink in Hrun. rewrite (proj2 (String.eqb_neq _ _) Hne) in Hrun.
    cbv zeta in Hrun. rewrite Hperr in Hrun. cbn in Hrun.
    injection Hrun as <- <-. by eexists.
Qed.
End DiskFacts.

Section DiskWitnesses.
Import docker memfs ledger fixtures samples.

Lemma applyEntry_unsupported_type_witness :
  header pipe = Some pipeHeader /\
  isMarker (Name pipeHeader) = false /\
  (Name pipeHeader ∉ (∅ : gset string)) /\
  supported pipeHeader = false /\
  trace (@applyEntry machine toy pipe ∅ ∅ lower).2
  = trace lower ++ [Fs (os_RemoveAll (Name pipeHeader))] /\
  exists err,
    (@applyEntry machine toy pipe ∅ ∅ lower).1 = Stop err /\
    ((@env_fs machine toy (os_RemoveAll (Name pipeHeader)) (world lower)).1 = None ->
     err = ErrNew ("unsupported file type: " +:+ pretty (Typeflag pipeHeader))).
Proof.
  split; [reflexivity|]. split; [reflexivity|]. split; [apply not_elem_of_empty|].
  split; [reflexivity|].
  apply (@applyEntry_unsupported_type machine toy pipe pipeHeader ∅ ∅ lower).
  - reflexivity.
  - reflexivity.
  - apply not_elem_of_empty.
  - reflexivity.
Defined.

(** The file of the lower layer is gone once the named pipe of the same
    name has been rejected. *)
Example unsupported_entry_removes_file :
  is_Some (names (disk (world lower)) !! ["etc"; "hosts"]) /\
  let run := @applyEntry machine toy pipe ∅ ∅ lower in
  run.1 = Stop (ErrNew "unsupported file type: 54") /\
  names (disk (world run.2)) !! ["etc"; "hosts"] = None.
Proof. vm_compute. split; [by eexists | split; reflexivity]. Qed.

Lemma applyEntry_marker_creates_nothing_witness :
  header hide = Some hideHeader /\
  isMarker (Name hideHeader) = true /\
  exists cs,
    trace (@applyEntry machine toy hide ∅ {["etc/hosts"]} lower).2
    = trace lower ++ map Fs cs /\
    Forall (fun c => isRemoval c = true) cs /\
    forall del' added',
      (@applyEntry machine toy hide ∅ {["etc/hosts"]} lower).1 = Next del' added' ->
      added' ⊆ {["etc/hosts"]}.
Proof.
  split; [reflexivity|]. split; [reflexivity|].
  apply (@applyEntry_marker_creates_nothing machine toy hide hideHeader ∅
           {["etc/hosts"]} lower).
  - reflexivity.
  - reflexivity.
Defined.

Lemma applyEntry_regular_file_witness :
  header motd = Some motdHeader /\
  isMarker (Name motdHeader) = false /\
  (Name motdHeader ∉ (∅ : gset string)) /\
  Typeflag motdHeader = TypeReg /\
  finished (@applyEntry machine toy motd ∅ ∅ lower).1 = true /\
  stat (disk (world (@applyEntry machine toy motd ∅ ∅ lower).2)) ["etc"; "motd"]
  = Some {| ikind := KFile [x68; x69]; imode := 416; iuid := 1000; igid := 100 |}.
Proof.
  split; [reflexivity|]. split; [reflexivity|]. split; [apply not_elem_of_empty|].
  split; [reflexivity|]. split; [vm_compute; reflexivity|].
  apply (@applyEntry_regular_file (fun bs => bs) untarOne motd motdHeader ∅ ∅ lower).
  - reflexivity.
  - reflexivity.
  - apply not_elem_of_empty.
  - reflexivity.
  - vm_compute; reflexivity.
Defined.

Lemma applyEntry_directory_witness :
  header (directory "etc") = Some etcHeader /\
  isMarker (Name etcHeader) = false /\
  (Name etcHeader ∉ (∅ : gset string)) /\
  Typeflag etcHeader = TypeDir /\
  finished (@applyEntry machine toy (directory "etc") ∅ ∅ lower).1 = true /\
  stat (disk (world (@applyEntry machine toy (directory "etc") ∅ ∅ lower).2)) ["etc"]
  = Some {| ikind := KDir; imode := 493; iuid := 0; igid := 0 |}.
Proof.
  split; [reflexivity|]. split; [reflexivity|]. split; [apply not_elem_of_empty|].
  split; [reflexivity|]. split; [vm_compute; reflexivity|].
  apply (@applyEntry_directory (fun bs => bs) untarOne (directory "etc") etcHeader
           ∅ ∅ lower).
  - reflexivity.
  - reflexivity.
  - apply not_elem_of_empty.
  - reflexivity.
  - vm_compute; reflexivity.
Defined.

Lemma applyEntry_symlink_witness :
  header sh = Some shHeader /\
  isMarker (Name shHeader) = false /\
  (Name shHeader ∉ (∅ : gset string)) /\
  Typeflag shHeader = TypeSymlink /\
  finished (@applyEntry machine toy sh ∅ ∅ tools).1 = true /\
  stat (disk (world (@applyEntry machine toy sh ∅ ∅ tools).2)) ["bin"; "sh"]
  = Some {| ikind := KSymlink "busybox"; imode := 511; iuid := 7; igid := 8 |}.
Proof.
  split; [reflexivity|]. split; [reflexivity|]. split; [apply not_elem_of_empty|].
  split; [reflexivity|]. split; [vm_compute; reflexivity|].
  apply (@applyEntry_symlink (fun bs => bs) untarOne sh shHeader ∅ ∅ tools).
  - reflexivity.
  - reflexivity.
  - apply not_elem_of_empty.
  - reflexivity.
  - vm_compute; reflexivity.
Defined.


(** The group of the hard link entry shows on the file linked to. *)
Example hard_link_changes_target_owner :
  (igid <$> stat (disk (world tools)) ["bin"; "su"]) = Some 0 /\
  (igid <$> stat (disk (world (@applyEntry machine toy sudo ∅ ∅ tools).2))
     ["bin"; "su"]) = Some 4.
Proof. vm_compute. split; reflexivity. Qed.

Lemma applyEntry_whiteout_on_disk_witness :
  header hide = Some hideHeader /\
  String.eqb (filepath.Base (Name hideHeader)) ".wh..wh..plnk" = false /\
  String.eqb (filepath.Base (Name hideHeader)) ".wh..wh..opq" = false /\
  filepath.HasPrefix (filepath.Base (Name hideHeader)) ".wh." = true /\
  finished (@applyEntry machine toy hide ∅ {["etc/hosts"]} lower).1 = true /\
  (@applyEntry machine toy hide ∅ {["etc/hosts"]} lower).1
  = Next ∅ ({["etc/hosts"]} ∖ {["etc/hosts"]}) /\
  inodes (disk (world (@applyEntry machine toy hide ∅ {["etc/hosts"]} lower).2))
  = inodes (disk (world lower)) /\
  forall q,
    names (disk (world (@applyEntry machine toy hide ∅ {["etc/hosts"]} lower).2)) !! q
    = if bool_decide (["etc"; ".wh.hosts"] `prefix_of` q)
         || bool_decide (["etc"; "hosts"] `prefix_of` q)
      then None
      else names (disk (world lower)) !! q.
Proof.
  split; [reflexivity|]. split; [reflexivity|]. split; [reflexivity|].
  split; [reflexivity|]. split; [vm_compute; reflexivity|].
  apply (@applyEntry_whiteout_on_disk (fun bs => bs) untarOne hide hideHeader ∅
           {["etc/hosts"]} lower).
  - reflexivity.
  - reflexivity.
  - reflexivity.
  - reflexivity.
  - vm_compute; reflexivity.
Defined.

Lemma applyEntry_needs_parent_witness :
  header motd = Some motdHeader /\
  isMarker (Name motdHeader) = false /\
  (Name motdHeader ∉ (∅ : gset string)) /\
  (Typeflag motdHeader = TypeReg \/ Typeflag motdHeader = TypeSymlink) /\
  stat (disk (world (boot []))) (removelast (resolve (Name motdHeader))) = None /\
  exists err,
    (@applyEntry machine toy motd ∅ ∅ (boot [])).1 = Stop err /\
    ((RemoveAll (Name motdHeader) (disk (world (boot [])))).1 = None ->
     err = Errno ENOENT /\
     disk (world (@applyEntry machine toy motd ∅ ∅ (boot [])).2)
     = (RemoveAll (Name motdHeader) (disk (world (boot [])))).2).
Proof.
  split; [reflexivity|]. split; [reflexivity|]. split; [apply not_elem_of_empty|].
  split; [by left|]. split; [reflexivity|].
  apply (@applyEntry_needs_parent (fun bs => bs) untarOne motd motdHeader ∅ ∅ (boot [])).
  - reflexivity.
  - reflexivity.
  - apply not_elem_of_empty.
  - by left.
  - reflexivity.
Defined.
End DiskWitnesses.
